(** * Video controller of the Youtube-Backend repository

    A shallow embedding of [video.controller.js] (the six request handlers
    [getAllVideos], [publishAVideo], [getVideoById], [updateVideo],
    [deleteVideo], [togglePublishStatus]) over an explicit model of the two
    collaborators the handlers talk to: the document store (Mongoose models
    [Video], [User], and the [likes] / [subscriptions] collections) and the
    asset store (Cloudinary).

    A handler is a state-and-exception computation over a [World]: what a
    handler wrote before it threw stays written, exactly as with the
    [await]-sequenced calls of the source. *)

From Stdlib Require Import ZArith NArith QArith Ascii String.
From stdpp Require Import gmap strings list fin_maps sorting.

Local Open Scope Z_scope.

(** ** Identifiers

    A request carries identifiers as strings.  An ObjectId is a 96-bit
    number; the model accepts its canonical spelling, 24 hexadecimal digits
    of either case (the form every version of the driver accepts).  A stored
    identifier is the number itself, so two spellings of one identifier
    denote the same document. *)

Abbreviation ObjectId := N (only parsing).

Definition hex_digit (c : ascii) : option N :=
  let n := N_of_ascii c in
  if ((48 <=? n) && (n <=? 57))%N then Some (n - 48)%N
  else if ((97 <=? n) && (n <=? 102))%N then Some (n - 87)%N
  else if ((65 <=? n) && (n <=? 70))%N then Some (n - 55)%N
  else None.

Fixpoint parse_hex (acc : N) (s : string) : option N :=
  match s with
  | EmptyString => Some acc
  | String c s' =>
      match hex_digit c with
      | Some d => parse_hex (16 * acc + d)%N s'
      | None => None
      end
  end.

(** [new mongoose.Types.ObjectId(s)], and the cast Mongoose applies to an id
    argument. *)
Definition castObjectId (s : string) : option ObjectId :=
  if (String.length s =? 24)%nat then parse_hex 0%N s else None.

Definition isValidObjectId (s : string) : bool :=
  match castObjectId s with Some _ => true | None => false end.

(** ** JavaScript values the handlers test

    A string is held as the UTF-8 bytes of the JavaScript string. *)

(** Truthiness of a value that is a string or [undefined]. *)
Definition truthy (v : option string) : bool :=
  match v with
  | Some s => negb (String.eqb s "")
  | None => false
  end.

Definition bytes (l : list N) : string :=
  fold_right (λ n s, String (ascii_of_N n) s) EmptyString l.

(** The characters of a string, each as its bytes: the first byte of a
    UTF-8 sequence tells its length. *)
Fixpoint chars (s : string) : list string :=
  match s with
  | EmptyString => []
  | String c1 r1 =>
      let n := N_of_ascii c1 in
      if (n <? 192)%N then String c1 EmptyString :: chars r1
      else
        match r1 with
        | EmptyString => [String c1 EmptyString]
        | String c2 r2 =>
            if (n <? 224)%N then String c1 (String c2 EmptyString) :: chars r2
            else
              match r2 with
              | EmptyString => [String c1 (String c2 EmptyString)]
              | String c3 r3 =>
                  if (n <? 240)%N
                  then String c1 (String c2 (String c3 EmptyString)) :: chars r3
                  else
                    match r3 with
                    | EmptyString => [String c1 (String c2 (String c3 EmptyString))]
                    | String c4 r4 =>
                        String c1 (String c2 (String c3 (String c4 EmptyString)))
                          :: chars r4
                    end
              end
        end
  end.

(** The characters [String.prototype.trim] removes: the white space and the
    line terminators of ECMAScript.  U+0009 to U+000D, U+0020, U+00A0,
    U+1680, U+2000 to U+200A, U+2028, U+2029, U+202F, U+205F, U+3000 and
    U+FEFF. *)
Definition white_space : list string :=
  [ bytes [9]; bytes [10]; bytes [11]; bytes [12]; bytes [13]; bytes [32];
    bytes [194; 160]; bytes [225; 154; 128];
    bytes [226; 128; 128]; bytes [226; 128; 129]; bytes [226; 128; 130];
    bytes [226; 128; 131]; bytes [226; 128; 132]; bytes [226; 128; 133];
    bytes [226; 128; 134]; bytes [226; 128; 135]; bytes [226; 128; 136];
    bytes [226; 128; 137]; bytes [226; 128; 138];
    bytes [226; 128; 168]; bytes [226; 128; 169]; bytes [226; 128; 175];
    bytes [226; 129; 159]; bytes [227; 128; 128]; bytes [239; 187; 191] ]%N.

Definition is_space (c : string) : bool := existsb (String.eqb c) white_space.

Fixpoint trim_start (l : list string) : list string :=
  match l with
  | [] => []
  | c :: l' => if is_space c then trim_start l' else l
  end.

Definition trim_end (l : list string) : list string :=
  rev (trim_start (rev l)).

Definition trim (s : string) : string :=
  String.concat "" (trim_end (trim_start (chars s))).

(** ** Documents *)

(** An uploaded asset as a document stores it.  [url] can be [undefined]:
    [updateVideo] builds such a value. *)
Record Media := { url : option string; public_id : string }.

Record Video := {
  title : string;
  description : string;
  duration : Q;   (* seconds, as the asset store reports them *)
  videoFile : Media;
  thumbnail : Media;
  owner : ObjectId;
  views : Z;
  isPublished : bool;
  createdAt : Z
}.

Record User := {
  username : string;
  avatar : string;
  watchHistory : list ObjectId
}.

Record Like := { video : ObjectId; likedBy : ObjectId }.

Record Subscription := { channel : ObjectId; subscriber : ObjectId }.

(** Calls that reach a collaborator and change it, in the order issued. *)
Inductive Event :=
| EvUpload (localPath : string)
| EvDestroy (asset : string)
| EvVideoCreate (id : ObjectId)
| EvVideoUpdate (id : ObjectId)
| EvVideoDelete (id : ObjectId)
| EvUserSave (id : ObjectId)
| EvUserUpdateMany (pulled : ObjectId).

Record World := {
  videos : gmap N Video;
  users : gmap N User;
  likes : list Like;
  subscriptions : list Subscription;
  assets : gset string;
  now : Z;
  log : list Event
}.

Definition with_videos (f : gmap N Video → gmap N Video) (w : World) : World :=
  {| videos := f (videos w); users := users w; likes := likes w;
     subscriptions := subscriptions w; assets := assets w; now := now w;
     log := log w |}.

Definition with_users (f : gmap N User → gmap N User) (w : World) : World :=
  {| videos := videos w; users := f (users w); likes := likes w;
     subscriptions := subscriptions w; assets := assets w; now := now w;
     log := log w |}.

Definition with_assets (f : gset string → gset string) (w : World) : World :=
  {| videos := videos w; users := users w; likes := likes w;
     subscriptions := subscriptions w; assets := f (assets w); now := now w;
     log := log w |}.

Definition record (e : Event) (w : World) : World :=
  {| videos := videos w; users := users w; likes := likes w;
     subscriptions := subscriptions w; assets := assets w; now := now w;
     log := log w ++ [e] |}.

(** ** Exceptions and the handler monad *)

Inductive Exception :=
| ApiError (statusCode : nat) (message : string)
| TypeError      (* a property read on [null] or [undefined] *)
| CastError      (* Mongoose could not cast an id *)
| ValidationError. (* the schema rejected a document *)

Inductive Outcome (A : Type) :=
| Return (a : A)
| Throw (e : Exception).
Arguments Return {A} a.
Arguments Throw {A} e.

Definition Handler (A : Type) : Type := World → World * Outcome A.

Definition ret {A} (a : A) : Handler A := λ w, (w, Return a).

Definition throw {A} (e : Exception) : Handler A := λ w, (w, Throw e).

Definition bind {A B} (m : Handler A) (k : A → Handler B) : Handler B :=
  λ w, match m w with
       | (w', Return a) => k a w'
       | (w', Throw e) => (w', Throw e)
       end.

Definition gets {A} (f : World → A) : Handler A := λ w, (w, Return (f w)).

Definition modify (f : World → World) : Handler unit := λ w, (f w, Return tt).

(** [if (b) throw e] *)
Definition throw_if (b : bool) (e : Exception) : Handler unit :=
  if b then throw e else ret tt.

Notation "'let!' x ':=' m 'in' k" := (bind m (λ x, k))
  (at level 10, x name, m at level 100, k at level 200, only parsing).

(** ** The document store: the Mongoose calls the controller makes *)

(** An id argument is cast before the query runs. *)
Definition with_id {A} (id : string) (k : ObjectId → Handler A) : Handler A :=
  match castObjectId id with
  | Some o => k o
  | None => throw CastError
  end.

(** [Video.findById(id)] *)
Definition Video_findById (id : string) : Handler (option Video) :=
  with_id id (λ o, gets (λ w, videos w !! o)).

(** [Video.findByIdAndUpdate(id, update, {new: true})]: the document after
    the update, [null] when there is none. *)
Definition Video_findByIdAndUpdate (id : string) (update : Video → Video)
  : Handler (option Video) :=
  with_id id (λ o,
    let! _ := modify (λ w, record (EvVideoUpdate o) (with_videos (alter update o) w)) in
    gets (λ w, videos w !! o)).

(** [Video.findByIdAndDelete(id)]: the document removed, [null] when there
    was none. *)
Definition Video_findByIdAndDelete (id : string) : Handler (option Video) :=
  with_id id (λ o,
    let! old := gets (λ w, videos w !! o) in
    let! _ := modify (λ w, record (EvVideoDelete o) (with_videos (delete o) w)) in
    ret old).

(** Modelled from the spec: the schema of [models/video.model.js], which is
    not among the sources.  The data model gives every Video a title, a
    description, a duration and an owner, a view count and a creation time;
    a document without one of the first four is rejected, the count starts
    at 0 and the time is the time of creation. *)
Definition Video_create (title' description' : option string) (duration' : option Q)
    (videoFile' thumbnail' : Media) (owner' : option ObjectId)
    (isPublished' : bool) : Handler (ObjectId * Video) :=
  match title', description', duration', owner' with
  | Some t, Some d, Some seconds, Some o =>
      let! id := gets (λ w, fresh (dom (videos w))) in
      let! created := gets (λ w,
        {| title := t; description := d; duration := seconds;
           videoFile := videoFile'; thumbnail := thumbnail'; owner := o;
           views := 0; isPublished := isPublished'; createdAt := now w |}) in
      let! _ := modify (λ w, record (EvVideoCreate id) (with_videos (<[id := created]>) w)) in
      ret (id, created)
  | _, _, _, _ => throw ValidationError
  end.

(** [User.findById(id).select('watchHistory')]; [findById(undefined)] finds
    nothing. *)
Definition User_findById (id : option ObjectId) : Handler (option User) :=
  gets (λ w, id ≫= (λ o, users w !! o)).

Definition set_watchHistory (h : list ObjectId) (u : User) : User :=
  {| username := username u; avatar := avatar u; watchHistory := h |}.

(** [user.save()] for a document loaded with its [watchHistory] only: the
    modified path is written back. *)
Definition User_save (id : ObjectId) (u : User) : Handler unit :=
  modify (λ w, record (EvUserSave id)
                 (with_users (alter (set_watchHistory (watchHistory u)) id) w)).

(** [$pull: { watchHistory: id }] removes every occurrence. *)
Definition pull (o : ObjectId) (u : User) : User :=
  set_watchHistory (filter (λ x, x ≠ o) (watchHistory u)) u.

(** [User.updateMany({watchHistory: {$in: [id]}}, {$pull: {watchHistory: id}})] *)
Definition User_updateMany_pull (id : string) : Handler unit :=
  with_id id (λ o,
    modify (λ w, record (EvUserUpdateMany o)
      (with_users (fmap (λ u, if bool_decide (o ∈ watchHistory u) then pull o u else u)) w))).

(** ** The asset store *)

(** What the asset store answers to an upload; [up_duration] is there for
    media that have one, in seconds. *)
Record UploadResult := {
  up_url : string;
  up_public_id : string;
  up_duration : option Q
}.

Definition media_of (r : UploadResult) : Media :=
  {| url := Some (up_url r); public_id := up_public_id r |}.

(** Modelled from the spec: [utils/cloudinary.js] is not among the sources.
    [delete(id) -> ok]: the asset is gone afterwards and the caller gets no
    error. *)
Definition deleteFromCloudinary (asset : string) : Handler unit :=
  modify (λ w, record (EvDestroy asset) (with_assets (λ a, a ∖ {[asset]}) w)).

Section Controller.

(** What the asset store answers to an upload of the file at a local path:
    the stored asset, or nothing when the upload fails. *)
Variable upload_outcome : string → option UploadResult.

(** The Atlas Search index [search-videos] over title and description. *)
Variable atlas_search : string → list (ObjectId * Video) → list (ObjectId * Video).

(** Modelled from the spec: [utils/cloudinary.js] is not among the sources.
    [upload(localPath) -> {url, id, duration?}], and [null] on failure. *)
Definition uploadOnCloudinary (localPath : string) : Handler (option UploadResult) :=
  let! _ := modify (λ w, record (EvUpload localPath)
              match upload_outcome localPath with
              | Some r => with_assets (λ a, {[up_public_id r]} ∪ a) w
              | None => w
              end) in
  ret (upload_outcome localPath).

(** ** Shared tests *)

(** [currentVideo?.owner.toString() != req.user?._id].  The left side is a
    hexadecimal string or [undefined], the right side an ObjectId or
    [undefined]; [!=] turns the ObjectId into its hexadecimal string, and
    [undefined] is loosely equal to [undefined] only. *)
Definition not_owner (currentVideo : option Video) (user : option ObjectId) : bool :=
  negb (bool_decide (owner <$> currentVideo = user)).

(** [!video] for an array: an array, also an empty one, is truthy. *)
Definition falsy_array {A} (l : list A) : bool := false.

(** ** togglePublishStatus *)

Definition set_isPublished (b : bool) (v : Video) : Video :=
  {| title := title v; description := description v; duration := duration v;
     videoFile := videoFile v; thumbnail := thumbnail v; owner := owner v;
     views := views v; isPublished := b; createdAt := createdAt v |}.

Definition togglePublishStatus (videoId : string) (user : option ObjectId)
  : Handler bool :=
  let! _ := throw_if (negb (isValidObjectId videoId)) (ApiError 400 "Invalid videoId") in
  let! currentVideo := Video_findById videoId in
  match currentVideo with
  | None => throw (ApiError 401 "Video not found")
  | Some cv =>
      let! _ := throw_if (not_owner currentVideo user)
        (ApiError 400 "You can't toggle publish status as you are not owner of this video") in
      let! toggleVideoStatus :=
        Video_findByIdAndUpdate videoId (set_isPublished (negb (isPublished cv))) in
      match toggleVideoStatus with
      | None => throw TypeError
      | Some t => ret (isPublished t)
      end
  end.

(** ** deleteVideo *)

Definition deleteVideo (videoId : string) (user : option ObjectId) : Handler Video :=
  let! _ := throw_if (negb (isValidObjectId videoId)) (ApiError 400 "Invalid videoId") in
  let! currentVideo := Video_findById videoId in
  let! _ := throw_if (not_owner currentVideo user)
    (ApiError 400 "You can't delete video as you are not owner of this video") in
  let! _ := User_updateMany_pull videoId in
  let! deletedVideo := Video_findByIdAndDelete videoId in
  match deletedVideo with
  | None => throw (ApiError 400 "Failed to delete video please try again")
  | Some d =>
      let! _ := deleteFromCloudinary (public_id (videoFile d)) in
      let! _ := deleteFromCloudinary (public_id (thumbnail d)) in
      ret d
  end.

(** ** updateVideo *)

(** [$set: { title, description, thumbnail }].  Mongoose (6 and later) drops
    the keys of an update whose value is [undefined], so an absent title or
    description leaves the field alone; [thumbnail] is replaced whole. *)
Definition set_details (title' description' : option string) (thumbnail' : Media)
    (v : Video) : Video :=
  {| title := default (title v) title';
     description := default (description v) description';
     duration := duration v; videoFile := videoFile v; thumbnail := thumbnail';
     owner := owner v; views := views v; isPublished := isPublished v;
     createdAt := createdAt v |}.

Definition updateVideo (videoId : string) (title' description' : option string)
    (thumbnailLocalPath : option string) (user : option ObjectId) : Handler Video :=
  let! _ := throw_if (negb (isValidObjectId videoId)) (ApiError 400 "Invalid video Id") in
  let! currentVideo := Video_findById videoId in
  let! _ := throw_if (not_owner currentVideo user)
    (ApiError 400 "Only Owners can edit video") in
  let! _ := throw_if (negb (truthy title') && negb (truthy description')
                      && negb (truthy thumbnailLocalPath))
    (ApiError 400 "Atleast one field should be passed to update") in
  let! thumbnail' :=
    if truthy thumbnailLocalPath then
      let! found := Video_findById videoId in
      match found with
      | None => throw TypeError
      | Some v =>
          (* oldImageUrl = video.thumbnail.url, not read again on this path *)
          let! uploaded := uploadOnCloudinary (default "" thumbnailLocalPath) in
          match uploaded with
          | None => throw (ApiError 401 "Error while uploading thumbnail")
          | Some r =>
              let! _ := deleteFromCloudinary (public_id (thumbnail v)) in
              ret (media_of r)
          end
      end
    else
      match currentVideo with
      | None => throw TypeError
      | Some cv =>
          (* oldImageUrl was never assigned on this path: it is undefined *)
          ret {| url := None; public_id := public_id (thumbnail cv) |}
      end in
  let! updatedVideo :=
    Video_findByIdAndUpdate videoId (set_details title' description' thumbnail') in
  match updatedVideo with
  | None => throw (ApiError 500 "Failed to update video please try again")
  | Some v => ret v
  end.

(** ** getVideoById *)

(** The values [$in] compares in the two membership tests.  An [undefined]
    element of a pipeline array reaches the server as [null]. *)
Inductive Bson :=
| BNull
| BObjectId (o : ObjectId).

#[global] Instance Bson_eq_dec : EqDecision Bson.
Proof. solve_decision. Defined.

(** [req.user?._id] as the pipeline carries it. *)
Definition user_id_value (user : option ObjectId) : Bson :=
  from_option BObjectId BNull user.

(** [{ $in: [x, arr] }] *)
Definition bson_in (x : Bson) (arr : list Bson) : bool := bool_decide (x ∈ arr).

Record OwnerView := {
  o_id : ObjectId;
  o_username : string;
  o_avatar : string;
  subscribersCount : nat;
  isSubscribed : bool
}.

Record VideoView := {
  v_id : ObjectId;
  v_videoFile : Media;
  v_title : string;
  v_description : string;
  v_views : Z;
  v_createdAt : Z;
  v_isPublished : bool;
  v_duration : Q;
  v_owner : option OwnerView;
  likesCount : nat;
  isLiked : bool
}.

(** The [subscriptions] joined to a channel, and the [likes] joined to a
    video. *)
Definition subscribers_of (w : World) (o : ObjectId) : list Subscription :=
  filter (λ s, channel s = o) (subscriptions w).

Definition likes_of (w : World) (o : ObjectId) : list Like :=
  filter (λ l, video l = o) (likes w).

(** The inner pipeline of the [users] lookup. *)
Definition owner_lookup (user : option ObjectId) (w : World) (o : ObjectId)
  : list OwnerView :=
  match users w !! o with
  | None => []
  | Some u =>
      let subscribers := subscribers_of w o in
      [ {| o_id := o; o_username := username u; o_avatar := avatar u;
           subscribersCount := length subscribers;
           isSubscribed :=
             if bson_in (user_id_value user) (BObjectId ∘ subscriber <$> subscribers)
             then true else false |} ]
  end.

(** [Video.aggregate([...])] of [getVideoById]: no document or one. *)
Definition video_details (user : option ObjectId) (o : ObjectId) (w : World)
  : list VideoView :=
  match videos w !! o with
  | None => []
  | Some v =>
      let likes' := likes_of w o in
      [ {| v_id := o; v_videoFile := videoFile v; v_title := title v;
           v_description := description v; v_views := views v;
           v_createdAt := createdAt v; v_isPublished := isPublished v;
           v_duration := duration v;
           v_owner := head (owner_lookup user w (owner v));
           likesCount := length likes';
           isLiked :=
             if bson_in (user_id_value user) (BObjectId ∘ likedBy <$> likes')
             then true else false |} ]
  end.

(** [$inc: { views: 1 }] *)
Definition inc_views (v : Video) : Video :=
  {| title := title v; description := description v; duration := duration v;
     videoFile := videoFile v; thumbnail := thumbnail v; owner := owner v;
     views := views v + 1; isPublished := isPublished v;
     createdAt := createdAt v |}.

Record VideoResponse := {
  r_video : list VideoView;
  r_watchHistory : list ObjectId
}.

Definition getVideoById (videoId : string) (user : option ObjectId)
  : Handler VideoResponse :=
  let! _ := throw_if (negb (isValidObjectId videoId)) (ApiError 400 "Invalid Video Id") in
  let! found := with_id videoId (λ o, gets (video_details user o)) in
  let! _ := throw_if (falsy_array found) (ApiError 404 "No video found") in
  let! _ := Video_findByIdAndUpdate videoId inc_views in
  let! loaded := User_findById user in
  match loaded, user with
  | Some u, Some uid =>
      (* user.watchHistory.push(videoId) *)
      let! pushed :=
        with_id videoId (λ o, ret (set_watchHistory (watchHistory u ++ [o]) u)) in
      let! _ := User_save uid pushed in
      ret {| r_video := found; r_watchHistory := watchHistory pushed |}
  | _, _ => throw TypeError
  end.

(** ** publishAVideo *)

(** [req.files], as the upload middleware leaves it: per field the paths of
    the files received. *)
Record Files := {
  f_videoFile : option (list string);
  f_thumbnail : option (list string)
}.

(** [req.files?.field[0].path] *)
Definition first_path (files : option Files) (field : Files → option (list string))
  : Handler (option string) :=
  match files with
  | None => ret None
  | Some fs =>
      match field fs with
      | Some (p :: _) => ret (Some p)
      | _ => throw TypeError
      end
  end.

(** [field?.trim() === ""] *)
Definition blank (field : option string) : bool :=
  match field with
  | Some s => String.eqb (trim s) ""
  | None => false
  end.

Definition publishAVideo (title' description' : option string)
    (files : option Files) (user : option ObjectId) : Handler (ObjectId * Video) :=
  let! _ := throw_if (existsb blank [title'; description'])
    (ApiError 400 "All fields are required") in
  let! videoFileLocalPath := first_path files f_videoFile in
  let! thumbnailLocalPath := first_path files f_thumbnail in
  let! _ := throw_if (negb (truthy videoFileLocalPath))
    (ApiError 400 "videoFileLocalPath is required") in
  let! _ := throw_if (negb (truthy thumbnailLocalPath))
    (ApiError 400 "thumbnailLocalPath is required") in
  let! videoFile' := uploadOnCloudinary (default "" videoFileLocalPath) in
  let! thumbnail' := uploadOnCloudinary (default "" thumbnailLocalPath) in
  match videoFile', thumbnail' with
  | None, _ => throw (ApiError 400 "Video file not found")
  | Some _, None => throw (ApiError 400 "Thumbnail not found")
  | Some vf, Some th =>
      let! created :=
        Video_create title' description' (up_duration vf) (media_of vf)
          (media_of th) user true in
      let! createdVideo := gets (λ w, videos w !! created.1) in
      match createdVideo with
      | None => throw (ApiError 401 "Something wrong while Adding a video")
      | Some cv => ret (created.1, cv)
      end
  end.

(** ** getAllVideos *)

Record ListQuery := {
  page : option Z;      (* parseInt(page, 10); nothing when absent or NaN *)
  limit : option Z;     (* parseInt(limit, 10); nothing when absent or NaN *)
  query : option string;
  sortBy : option string;
  sortType : option string;
  userId : option string
}.

(** [$project: { username: 1, "avatar.url": 1 }] on a user: the identifier
    and the username.  The avatar of a user is a string ([registerUser]
    stores [avatar.url]), so the path [avatar.url] selects nothing. *)
Record OwnerDetails := { od_id : ObjectId; od_username : string }.

Record FeedDoc := {
  fd_id : ObjectId;
  fd_video : Video;
  ownerDetails : OwnerDetails
}.

Record Page := {
  docs : list FeedDoc;
  totalDocs : nat;
  pg_limit : Z;
  pg_page : Z
}.

(** The values [$sort] compares in a video document. *)
Inductive SortValue :=
| SNull                  (* the field is not there *)
| SNumber (q : Q)
| SString (s : string)
| SObjectId (o : ObjectId)
| SBoolean (b : bool)
| SDate (ms : Z).

(** The order of the server between values of different types. *)
Definition type_rank (v : SortValue) : N :=
  match v with
  | SNull => 0
  | SNumber _ => 1
  | SString _ => 2
  | SObjectId _ => 3
  | SBoolean _ => 4
  | SDate _ => 5
  end%N.

(** Strings compare byte by byte. *)
Fixpoint bytes_leb (s t : string) : bool :=
  match s, t with
  | EmptyString, _ => true
  | String _ _, EmptyString => false
  | String a s', String b t' =>
      if (N_of_ascii a <? N_of_ascii b)%N then true
      else if (N_of_ascii a =? N_of_ascii b)%N then bytes_leb s' t'
      else false
  end.

Definition value_leb (a b : SortValue) : bool :=
  match a, b with
  | SNumber p, SNumber q => Qle_bool p q
  | SString s, SString t => bytes_leb s t
  | SObjectId o, SObjectId o' => (o <=? o')%N
  | SBoolean x, SBoolean y => implb x y
  | SDate x, SDate y => x <=? y
  | _, _ => (type_rank a <=? type_rank b)%N
  end.

Definition media_field (m : Media) (field : string) : SortValue :=
  if String.eqb field "url" then from_option SString SNull (url m)
  else if String.eqb field "public_id" then SString (public_id m)
  else SNull.

(** The value of the field [sortBy] names in a video document; [SNull] for
    a name the document has no field for (an embedded document named as a
    whole is not modelled and reads as [SNull] too). *)
Definition sort_key (field : string) (d : ObjectId * Video) : SortValue :=
  if String.eqb field "_id" then SObjectId d.1
  else if String.eqb field "title" then SString (title d.2)
  else if String.eqb field "description" then SString (description d.2)
  else if String.eqb field "duration" then SNumber (duration d.2)
  else if String.eqb field "owner" then SObjectId (owner d.2)
  else if String.eqb field "views" then SNumber (inject_Z (views d.2))
  else if String.eqb field "isPublished" then SBoolean (isPublished d.2)
  else if String.eqb field "createdAt" then SDate (createdAt d.2)
  else if String.eqb field "videoFile.url" then media_field (videoFile d.2) "url"
  else if String.eqb field "videoFile.public_id"
       then media_field (videoFile d.2) "public_id"
  else if String.eqb field "thumbnail.url" then media_field (thumbnail d.2) "url"
  else if String.eqb field "thumbnail.public_id"
       then media_field (thumbnail d.2) "public_id"
  else SNull.

(** The order of [{ $sort: { field: 1 } }] ([ascending]) or [-1]. *)
Definition sort_order (field : string) (ascending : bool)
  : relation (ObjectId * Video) :=
  λ a b, if ascending
         then value_leb (sort_key field a) (sort_key field b) = true
         else value_leb (sort_key field b) (sort_key field a) = true.

#[global] Instance sort_order_dec field asc : RelDecision (sort_order field asc).
Proof. intros a b. unfold sort_order. destruct asc; apply _. Defined.

(** [$sort] on the field named.  Documents that compare equal (all of them,
    when the field is in none) come out in an order the server does not
    promise; the model keeps their input order. *)
Definition sort_stage (field : string) (ascending : bool)
    (l : list (ObjectId * Video)) : list (ObjectId * Video) :=
  merge_sort (sort_order field ascending) l.

(** [$lookup] of the owner, then [$unwind]: a video whose owner is not a user
    yields no document. *)
Definition join_owner (w : World) (d : ObjectId * Video) : option FeedDoc :=
  u ← users w !! owner d.2;
  Some {| fd_id := d.1; fd_video := d.2;
          ownerDetails := {| od_id := owner d.2; od_username := username u |} |}.

(** [Video.aggregatePaginate(aggregate, {page, limit})] of the pagination
    plug-in: a limit that is not positive is 10, a page that is 0 is 1.
    The total it reports is [counted], the number of documents the pipeline
    holds before its closing [$lookup] and [$unwind]; the page is cut from
    the documents after them. *)
Definition aggregatePaginate (page' limit' : option Z) (counted : nat)
    (l : list FeedDoc) : Page :=
  let lim := match limit' with Some n => if 0 <? n then n else 10 | None => 10 end in
  let pg := match page' with Some p => if Z.abs p =? 0 then 1 else Z.abs p | None => 1 end in
  {| docs := take (Z.to_nat lim) (drop (Z.to_nat ((pg - 1) * lim)) l);
     totalDocs := counted; pg_limit := lim; pg_page := pg |}.

Definition getAllVideos (q : ListQuery) : Handler Page :=
  let! all := gets (λ w, map_to_list (videos w)) in
  let! searched :=
    ret (if truthy (query q) then atlas_search (default "" (query q)) all else all) in
  let! owned :=
    if truthy (userId q) then
      let! _ := throw_if (negb (isValidObjectId (default "" (userId q))))
        (ApiError 400 "Invalid User Id") in
      with_id (default "" (userId q))
        (λ o, ret (filter (λ d, owner d.2 = o) searched))
    else ret searched in
  let! published := ret (filter (λ d, isPublished d.2 = true) owned) in
  let! sorted :=
    ret (if truthy (sortBy q) && truthy (sortType q)
         then sort_stage (default "" (sortBy q))
                (bool_decide (sortType q = Some "asc")) published
         else sort_stage "createdAt" false published) in
  let! joined := gets (λ w, omap (join_owner w) sorted) in
  ret (aggregatePaginate (page q) (limit q) (length sorted) joined).

End Controller.

(** ** Requests in sequence *)

(** [n] calls of one handler, one after the other; a call that throws ends
    the sequence. *)
Fixpoint replay {A} (n : nat) (h : Handler A) : Handler (list A) :=
  match n with
  | O => ret []
  | S n' =>
      let! a := h in
      let! rest := replay n' h in
      ret (a :: rest)
  end.

(** ** What a handler keeps

    [keeps R m]: whatever the world, and whether [m] returns or throws, the
    world before and the world after are related by [R]. *)
Definition keeps {A} (R : relation World) (m : Handler A) : Prop :=
  ∀ w, R w (m w).1.

(** A component of the world is as it was. *)
Definition untouched {A} (part : World → A) : relation World :=
  λ w w', part w' = part w.

(** Every stored video is still stored, with the owner, the video file, the
    duration and the creation time it had, and with no fewer views. *)
Definition videos_kept : relation World :=
  λ w w', ∀ i v, videos w !! i = Some v →
    ∃ v', videos w' !! i = Some v'
          ∧ owner v' = owner v
          ∧ videoFile v' = videoFile v
          ∧ duration v' = duration v
          ∧ createdAt v' = createdAt v
          ∧ views v ≤ views v'.

(** The references from videos to the asset store are sound: both assets of
    a stored video are in the asset store, and no asset is referenced twice,
    neither by two videos nor as file and thumbnail of one. *)
Definition assets_consistent (w : World) : Prop :=
  (∀ i v, videos w !! i = Some v →
     public_id (videoFile v) ∈ assets w
     ∧ public_id (thumbnail v) ∈ assets w
     ∧ public_id (videoFile v) ≠ public_id (thumbnail v))
  ∧ (∀ i j v v', i ≠ j →
       videos w !! i = Some v →
       videos w !! j = Some v' →
       public_id (videoFile v) ≠ public_id (videoFile v')
       ∧ public_id (videoFile v) ≠ public_id (thumbnail v')
       ∧ public_id (thumbnail v) ≠ public_id (thumbnail v')).

(** Every identifier in a watch-history names a stored video. *)
Definition history_sound (w : World) : Prop :=
  ∀ uid u i, users w !! uid = Some u → i ∈ watchHistory u →
             is_Some (videos w !! i).

(** The users are as they were and no stored video has left the store. *)
Definition users_same_videos_stay : relation World :=
  λ w w', users w' = users w
          ∧ ∀ i, is_Some (videos w !! i) → is_Some (videos w' !! i).

(** ** A small concrete world

    Two videos, two users, one like and one subscription; used to run the
    handlers on concrete requests. *)

Definition demo_upload (localPath : string) : option UploadResult :=
  if String.eqb localPath "/tmp/clip.mp4" then
    Some {| up_url := "http://cdn/clip.mp4"; up_public_id := "clip";
            up_duration := Some 12.5%Q |}
  else if String.eqb localPath "/tmp/cover.png" then
    Some {| up_url := "http://cdn/cover.png"; up_public_id := "cover";
            up_duration := None |}
  else None.

Definition demo_search (text : string) (l : list (ObjectId * Video))
  : list (ObjectId * Video) := l.

Definition id1 : string := "000000000000000000000001".
Definition id2 : string := "000000000000000000000002".
Definition id9 : string := "000000000000000000000009".

Definition alice : ObjectId := 10%N.
Definition bob : ObjectId := 11%N.

Definition video1 : Video :=
  {| title := "T"; description := "D"; duration := 30%Q;
     videoFile := {| url := Some "http://cdn/v1.mp4"; public_id := "v1" |};
     thumbnail := {| url := Some "http://cdn/t1.png"; public_id := "t1" |};
     owner := alice; views := 5; isPublished := true; createdAt := 100 |}.

Definition video2 : Video :=
  {| title := "U"; description := "E"; duration := 45%Q;
     videoFile := {| url := Some "http://cdn/v2.mp4"; public_id := "v2" |};
     thumbnail := {| url := Some "http://cdn/t2.png"; public_id := "t2" |};
     owner := bob; views := 0; isPublished := false; createdAt := 200 |}.

Definition alice_doc : User :=
  {| username := "alice"; avatar := "a.png"; watchHistory := [] |}.

Definition bob_doc : User :=
  {| username := "bob"; avatar := "b.png"; watchHistory := [1%N; 2%N; 1%N] |}.

Definition demo_world : World :=
  {| videos := <[1%N := video1]> (<[2%N := video2]> ∅);
     users := <[alice := alice_doc]> (<[bob := bob_doc]> ∅);
     likes := [ {| video := 1%N; likedBy := bob |} ];
     subscriptions := [ {| channel := alice; subscriber := bob |} ];
     assets := {[ "v1"; "t1"; "v2"; "t2" ]};
     now := 1000;
     log := [] |}.

Definition demo_files : Files :=
  {| f_videoFile := Some ["/tmp/clip.mp4"]; f_thumbnail := Some ["/tmp/cover.png"] |}.

(** What a fetch of the first video computes for a caller without
    identity, and for alice, who neither likes it nor is subscribed. *)
Definition demo_view : VideoView :=
  {| v_id := 1%N; v_videoFile := videoFile video1; v_title := "T";
     v_description := "D"; v_views := 5; v_createdAt := 100;
     v_isPublished := true; v_duration := 30%Q;
     v_owner := Some {| o_id := alice; o_username := "alice"; o_avatar := "a.png";
                        subscribersCount := 1; isSubscribed := false |};
     likesCount := 1; isLiked := false |}.




(** What bob's fetch of the first video computes. *)
Definition demo_view_bob : VideoView :=
  {| v_id := 1%N; v_videoFile := videoFile video1; v_title := "T";
     v_description := "D"; v_views := 5; v_createdAt := 100;
     v_isPublished := true; v_duration := 30%Q;
     v_owner := Some {| o_id := alice; o_username := "alice"; o_avatar := "a.png";
                        subscribersCount := 1; isSubscribed := true |};
     likesCount := 1; isLiked := true |}.

(** The world after bob fetched an identifier that names no video. *)
Definition stale_world : World := (getVideoById id9 (Some bob) demo_world).1.

(** * Properties *)

(** ** Running a handler *)

Ltac run_handler :=
  repeat progress
    (unfold bind, throw_if, ret, throw, gets, modify, with_id,
       Video_findById, Video_findByIdAndUpdate, Video_findByIdAndDelete,
       User_findById, User_save, User_updateMany_pull, deleteFromCloudinary,
       uploadOnCloudinary, isValidObjectId, falsy_array;
     cbn beta iota).

(** Rewrite with the facts at hand, then reduce the tests they decide. *)
Ltac settle := cbn beta iota zeta delta [negb andb orb fst snd].

Lemma not_owner_same v : not_owner (Some v) (Some (owner v)) = false.
Proof. unfold not_owner. simpl. by rewrite bool_decide_eq_true_2. Qed.

Lemma not_owner_other v (user : option ObjectId) :
  user ≠ Some (owner v) → not_owner (Some v) user = true.
Proof.
  intros Hne. unfold not_owner. simpl.
  rewrite bool_decide_eq_false_2; [done | congruence].
Qed.

Lemma not_owner_missing (uid : ObjectId) : not_owner None (Some uid) = true.
Proof. done. Qed.

Lemma not_owner_nobody : not_owner None None = false.
Proof. done. Qed.

(** *** togglePublishStatus *)

Lemma togglePublishStatus_owner videoId o v w :
  castObjectId videoId = Some o →
  videos w !! o = Some v →
  togglePublishStatus videoId (Some (owner v)) w =
    (record (EvVideoUpdate o)
       (with_videos (alter (set_isPublished (negb (isPublished v))) o) w),
     Return (negb (isPublished v))).
Proof.
  intros Hid Hv. unfold togglePublishStatus. run_handler.
  rewrite Hid. simpl. rewrite Hv, not_owner_same. simpl.
  rewrite lookup_alter_eq, Hv. done.
Qed.

Lemma set_isPublished_twice v :
  set_isPublished (negb (negb (isPublished v)))
    (set_isPublished (negb (isPublished v)) v) = v.
Proof. destruct v as [? ? ? ? ? ? ? b ?]. unfold set_isPublished. simpl. by rewrite negb_involutive. Qed.

(** C9. For an existing video and its owner as the caller, two calls of
    [togglePublishStatus] in succession both return, the first returns the
    negated flag and that is the stored flag afterwards, the second returns
    the original flag, and the stored video is the original one again. *)
Theorem togglePublishStatus_twice videoId o v w :
  castObjectId videoId = Some o →
  videos w !! o = Some v →
  ∃ w1 w2,
    togglePublishStatus videoId (Some (owner v)) w
      = (w1, Return (negb (isPublished v)))
    ∧ isPublished <$> videos w1 !! o = Some (negb (isPublished v))
    ∧ togglePublishStatus videoId (Some (owner v)) w1
      = (w2, Return (isPublished v))
    ∧ isPublished <$> videos w2 !! o = Some (isPublished v)
    ∧ videos w2 = videos w.
Proof.
  intros Hid Hv.
  set (v1 := set_isPublished (negb (isPublished v)) v).
  set (w1 := record (EvVideoUpdate o)
               (with_videos (alter (set_isPublished (negb (isPublished v))) o) w)).
  assert (Hv1 : videos w1 !! o = Some v1).
  { subst w1. simpl. by rewrite lookup_alter_eq, Hv. }
  exists w1. eexists. split; [by apply togglePublishStatus_owner |].
  split; [by rewrite Hv1 |].
  pose proof (togglePublishStatus_owner videoId o v1 w1 Hid Hv1) as H2.
  change (owner v1) with (owner v) in H2.
  change (isPublished v1) with (negb (isPublished v)) in H2.
  rewrite negb_involutive in H2 at 2.
  split; [exact H2 |].
  assert (Hmap : alter (set_isPublished (negb (negb (isPublished v)))) o (videos w1)
                 = videos w).
  { subst w1. simpl. apply map_eq. intros i.
    destruct (decide (i = o)) as [-> | Hne].
    - rewrite !lookup_alter_eq, Hv. simpl. f_equal. apply set_isPublished_twice.
    - by rewrite !lookup_alter_ne. }
  change (videos (record (EvVideoUpdate o)
            (with_videos (alter (set_isPublished (negb (negb (isPublished v)))) o) w1)))
    with (alter (set_isPublished (negb (negb (isPublished v)))) o (videos w1)).
  rewrite Hmap. split; [by rewrite Hv | done].
Qed.

Lemma togglePublishStatus_twice_witness :
  ∃ w1 w2,
    togglePublishStatus id1 (Some alice) demo_world = (w1, Return false)
    ∧ isPublished <$> videos w1 !! 1%N = Some false
    ∧ togglePublishStatus id1 (Some alice) w1 = (w2, Return true)
    ∧ isPublished <$> videos w2 !! 1%N = Some true
    ∧ videos w2 = videos demo_world.
Proof.
  apply (togglePublishStatus_twice id1 1%N video1 demo_world); reflexivity.
Defined.

(** *** The ownership test *)

(** C6. For a stored video and a caller that is not its owner (an absent
    caller included), [updateVideo], [deleteVideo] and [togglePublishStatus]
    each throw their ownership error (status 400) and leave the whole world,
    the log of issued writes included, as it was. *)
Theorem non_owner_rejected upload videoId o v (user : option ObjectId)
    title' description' thumbnailLocalPath w :
  castObjectId videoId = Some o →
  videos w !! o = Some v →
  user ≠ Some (owner v) →
  updateVideo upload videoId title' description' thumbnailLocalPath user w
    = (w, Throw (ApiError 400 "Only Owners can edit video"))
  ∧ deleteVideo videoId user w
    = (w, Throw (ApiError 400
        "You can't delete video as you are not owner of this video"))
  ∧ togglePublishStatus videoId user w
    = (w, Throw (ApiError 400
        "You can't toggle publish status as you are not owner of this video")).
Proof.
  intros Hid Hv Hne. pose proof (not_owner_other v user Hne) as Hno.
  repeat split.
  - unfold updateVideo. run_handler. rewrite Hid. settle.
    by rewrite Hv, Hno.
  - unfold deleteVideo. run_handler. rewrite Hid. settle.
    by rewrite Hv, Hno.
  - unfold togglePublishStatus. run_handler. rewrite Hid. settle.
    by rewrite Hv, Hno.
Qed.

Lemma non_owner_rejected_witness :
  updateVideo demo_upload id1 (Some "X") None None (Some bob) demo_world
    = (demo_world, Throw (ApiError 400 "Only Owners can edit video"))
  ∧ deleteVideo id1 (Some bob) demo_world
    = (demo_world, Throw (ApiError 400
        "You can't delete video as you are not owner of this video"))
  ∧ togglePublishStatus id1 (Some bob) demo_world
    = (demo_world, Throw (ApiError 400
        "You can't toggle publish status as you are not owner of this video")).
Proof.
  apply (non_owner_rejected demo_upload id1 1%N video1 (Some bob)
           (Some "X") None None demo_world);
    [reflexivity | reflexivity | discriminate].
Defined.

(** The part of C10 the code keeps.  For a well-formed identifier of no
    stored video and an identified caller, [updateVideo] and [deleteVideo] throw their ownership
    error, not a not-found error, and leave the whole world as it was. *)
Theorem missing_video_rejected upload videoId o (uid : ObjectId)
    title' description' thumbnailLocalPath w :
  castObjectId videoId = Some o →
  videos w !! o = None →
  updateVideo upload videoId title' description' thumbnailLocalPath (Some uid) w
    = (w, Throw (ApiError 400 "Only Owners can edit video"))
  ∧ deleteVideo videoId (Some uid) w
    = (w, Throw (ApiError 400
        "You can't delete video as you are not owner of this video")).
Proof.
  intros Hid Hv. split.
  - unfold updateVideo. run_handler. rewrite Hid. settle.
    by rewrite Hv, not_owner_missing.
  - unfold deleteVideo. run_handler. rewrite Hid. settle.
    by rewrite Hv, not_owner_missing.
Qed.

Lemma missing_video_rejected_witness :
  updateVideo demo_upload id9 (Some "X") None None (Some alice) demo_world
    = (demo_world, Throw (ApiError 400 "Only Owners can edit video"))
  ∧ deleteVideo id9 (Some alice) demo_world
    = (demo_world, Throw (ApiError 400
        "You can't delete video as you are not owner of this video")).
Proof.
  apply (missing_video_rejected demo_upload id9 9%N alice (Some "X") None None
           demo_world); reflexivity.
Defined.

(** C10, on the code.  For a request without a caller identity and an
    identifier of no stored video the ownership test compares [undefined]
    with [undefined]: [!=] is false and the request is let through.
    [deleteVideo] then prunes the identifier from the watch-histories and
    throws its failed-delete error, not the ownership error; [updateVideo]
    writes nothing but dies on the read of the missing record, or throws its
    missing-fields error, not the ownership error either. *)
Lemma missing_video_anonymous_delete :
  castObjectId id9 = Some 9%N
  ∧ videos stale_world !! 9%N = None
  ∧ (deleteVideo id9 None stale_world).2
    = Throw (ApiError 400 "Failed to delete video please try again")
  ∧ (deleteVideo id9 None stale_world).2
    ≠ Throw (ApiError 400
        "You can't delete video as you are not owner of this video")
  ∧ watchHistory <$> users stale_world !! bob = Some [1; 2; 1; 9]%N
  ∧ watchHistory <$> users (deleteVideo id9 None stale_world).1 !! bob
    = Some [1; 2; 1]%N
  ∧ log (deleteVideo id9 None stale_world).1
    = log stale_world ++ [EvUserUpdateMany 9%N; EvVideoDelete 9%N]
  ∧ updateVideo demo_upload id9 (Some "X") None None None stale_world
    = (stale_world, Throw TypeError)
  ∧ updateVideo demo_upload id9 None None None None stale_world
    = (stale_world,
       Throw (ApiError 400 "Atleast one field should be passed to update")).
Proof. vm_compute. repeat split; congruence. Qed.

(** The same caller on [updateVideo]: the request passes the ownership test
    and dies on the read of the missing record. *)
Lemma missing_video_anonymous_update :
  updateVideo demo_upload id9 (Some "X") None None None demo_world
    = (demo_world, Throw TypeError)
  ∧ updateVideo demo_upload id9 None None None None demo_world
    = (demo_world, Throw (ApiError 400 "Atleast one field should be passed to update")).
Proof. split; reflexivity. Qed.

(** *** getVideoById *)

(** What one call by an existing user does, whether or not the identifier
    names a video. *)
Lemma getVideoById_run videoId o uid u w :
  castObjectId videoId = Some o →
  users w !! uid = Some u →
  getVideoById videoId (Some uid) w =
    (record (EvUserSave uid)
       (with_users (alter (set_watchHistory (watchHistory u ++ [o])) uid)
          (record (EvVideoUpdate o) (with_videos (alter inc_views o) w))),
     Return {| r_video := video_details (Some uid) o w;
               r_watchHistory := watchHistory u ++ [o] |}).
Proof.
  intros Hid Hu. unfold getVideoById. run_handler. rewrite Hid. settle.
  cbn -[alter lookup]. rewrite Hu. cbn -[alter lookup]. done.
Qed.

(** A caller that is absent, or is not a stored user, makes the call throw
    after the view was counted. *)
Lemma getVideoById_stranger videoId o (user : option ObjectId) w :
  castObjectId videoId = Some o →
  user ≫= (λ uid, users w !! uid) = None →
  getVideoById videoId user w =
    (record (EvVideoUpdate o) (with_videos (alter inc_views o) w), Throw TypeError).
Proof.
  intros Hid Hu. unfold getVideoById. run_handler. rewrite Hid. settle.
  cbn -[alter lookup]. destruct user as [uid |]; cbn -[alter lookup] in *.
  - by rewrite Hu.
  - done.
Qed.

(** C1. A call of [getVideoById] with a well-formed identifier of a stored
    video, by a caller that is a stored user, returns, leaves the view count
    of the video one higher and the caller's watch-history longer by the one
    identifier, at its end; and [n] such calls in sequence all return, leave
    the view count [n] higher and the watch-history longer by [n] copies of
    the identifier. *)
Theorem getVideoById_accounting videoId o v uid u w :
  castObjectId videoId = Some o →
  videos w !! o = Some v →
  users w !! uid = Some u →
  (∃ w' resp,
      getVideoById videoId (Some uid) w = (w', Return resp)
      ∧ views <$> videos w' !! o = Some (views v + 1)
      ∧ watchHistory <$> users w' !! uid = Some (watchHistory u ++ [o])
      ∧ r_watchHistory resp = watchHistory u ++ [o])
  ∧ ∀ n, ∃ w' rs,
      replay n (getVideoById videoId (Some uid)) w = (w', Return rs)
      ∧ length rs = n
      ∧ views <$> videos w' !! o = Some (views v + Z.of_nat n)
      ∧ watchHistory <$> users w' !! uid = Some (watchHistory u ++ replicate n o)
      ∧ length <$> (watchHistory <$> users w' !! uid)
        = Some (length (watchHistory u) + n)%nat.
Proof.
  intros Hid Hv Hu. split.
  - eexists _, _. split; [by apply getVideoById_run |].
    cbn -[alter lookup]. rewrite !lookup_alter_eq, Hv, Hu. done.
  - intros n. revert w v u Hv Hu.
    induction n as [| n IH]; intros w v u Hv Hu.
    + exists w, []. cbn -[lookup]. rewrite Hv, Hu. cbn.
      rewrite Z.add_0_r, app_nil_r, Nat.add_0_r. done.
    + set (w1 := record (EvUserSave uid)
         (with_users (alter (set_watchHistory (watchHistory u ++ [o])) uid)
            (record (EvVideoUpdate o) (with_videos (alter inc_views o) w)))).
      destruct (IH w1 (inc_views v) (set_watchHistory (watchHistory u ++ [o]) u))
        as (w' & rs & Hrun & Hlen & Hviews & Hhist & Hhlen).
      { subst w1. cbn -[alter lookup]. by rewrite lookup_alter_eq, Hv. }
      { subst w1. cbn -[alter lookup]. by rewrite lookup_alter_eq, Hu. }
      eexists w', (_ :: rs).
      split.
      { cbn [replay]. unfold bind at 1.
        rewrite (getVideoById_run videoId o uid u w Hid Hu).
        fold w1. unfold bind at 1. rewrite Hrun. reflexivity. }
      cbn in Hviews, Hhist, Hhlen.
      rewrite Hviews, Hhist.
      split; [cbn; by rewrite Hlen |].
      split; [f_equal; lia |].
      split.
      * f_equal. by rewrite <- app_assoc.
      * cbn. f_equal. rewrite !length_app, length_replicate. cbn. lia.
Qed.

Lemma getVideoById_accounting_witness :
  (∃ w' resp,
      getVideoById id1 (Some bob) demo_world = (w', Return resp)
      ∧ views <$> videos w' !! 1%N = Some 6
      ∧ watchHistory <$> users w' !! bob = Some [1; 2; 1; 1]%N
      ∧ r_watchHistory resp = [1; 2; 1; 1]%N)
  ∧ ∀ n, ∃ w' rs,
      replay n (getVideoById id1 (Some bob)) demo_world = (w', Return rs)
      ∧ length rs = n
      ∧ views <$> videos w' !! 1%N = Some (5 + Z.of_nat n)
      ∧ watchHistory <$> users w' !! bob = Some ([1; 2; 1]%N ++ replicate n 1%N)
      ∧ length <$> (watchHistory <$> users w' !! bob) = Some (3 + n)%nat.
Proof.
  apply (getVideoById_accounting id1 1%N video1 bob bob_doc demo_world);
    reflexivity.
Defined.

(** *** The two membership tests *)

Lemma bson_in_spec {A} (f : A → ObjectId) (user : option ObjectId) (l : list A) :
  bson_in (user_id_value user) (BObjectId ∘ f <$> l) = true
  ↔ ∃ uid x, user = Some uid ∧ x ∈ l ∧ f x = uid.
Proof.
  unfold bson_in. rewrite bool_decide_eq_true, list_elem_of_fmap. split.
  - intros (x & Heq & Hx). destruct user as [uid |]; simpl in *.
    + exists uid, x. repeat split; [done | congruence].
    + discriminate.
  - intros (uid & x & -> & Hx & <-). by exists x.
Qed.

Lemma cond_true_false (b : bool) : (if b then true else false) = b.
Proof. by destruct b. Qed.

Lemma getVideoById_response videoId o (user : option ObjectId) w w' resp :
  castObjectId videoId = Some o →
  getVideoById videoId user w = (w', Return resp) →
  r_video resp = video_details user o w.
Proof.
  intros Hid Hrun.
  destruct (user ≫= (λ uid, users w !! uid)) as [u |] eqn:Hu.
  - destruct user as [uid |]; [| done]. simpl in Hu.
    rewrite (getVideoById_run videoId o uid u w Hid Hu) in Hrun.
    by inversion Hrun.
  - rewrite (getVideoById_stranger videoId o user w Hid Hu) in Hrun.
    by inversion Hrun.
Qed.

(** C8. For a stored video [getVideoById] computes exactly one document.
    In it [isLiked] holds exactly when the caller is identified and a like of
    that video is the caller's; when the owner is a stored user the document
    carries the owner, and the owner's [isSubscribed] holds exactly when the
    caller is identified and a subscription to that owner is the caller's.
    With no caller identity both are false.  A call by a stored user returns
    this document, and a call that returns, returns no other. *)
Theorem video_details_flags (user : option ObjectId) videoId o v w :
  castObjectId videoId = Some o →
  videos w !! o = Some v →
  ∃ d,
    video_details user o w = [d]
    ∧ (isLiked d = true
         ↔ ∃ uid l, user = Some uid ∧ l ∈ likes w ∧ video l = o ∧ likedBy l = uid)
    ∧ (∀ u, users w !! owner v = Some u →
         ∃ ov, v_owner d = Some ov
               ∧ o_id ov = owner v
               ∧ (isSubscribed ov = true
                    ↔ ∃ uid s, user = Some uid ∧ s ∈ subscriptions w
                               ∧ channel s = owner v ∧ subscriber s = uid))
    ∧ (user = None →
         isLiked d = false ∧ ∀ ov, v_owner d = Some ov → isSubscribed ov = false)
    ∧ (∀ uid u, user = Some uid → users w !! uid = Some u →
         ∃ w', getVideoById videoId user w
                 = (w', Return {| r_video := [d];
                                  r_watchHistory := watchHistory u ++ [o] |}))
    ∧ (∀ w' resp, getVideoById videoId user w = (w', Return resp) →
                  r_video resp = [d]).
Proof.
  intros Hid Hv.
  assert (Hliked :
    (if bson_in (user_id_value user) (BObjectId ∘ likedBy <$> likes_of w o)
     then true else false) = true
    ↔ ∃ uid l, user = Some uid ∧ l ∈ likes w ∧ video l = o ∧ likedBy l = uid).
  { rewrite cond_true_false, bson_in_spec. unfold likes_of. split.
    - intros (uid & l & Hu & Hl & Hby). apply list_elem_of_filter in Hl as [Hvid Hl].
      by exists uid, l.
    - intros (uid & l & Hu & Hl & Hvid & Hby). exists uid, l.
      split; [done |]. split; [| done]. by apply list_elem_of_filter. }
  assert (Hsub :
    (if bson_in (user_id_value user)
          (BObjectId ∘ subscriber <$> subscribers_of w (owner v))
     then true else false) = true
    ↔ ∃ uid s, user = Some uid ∧ s ∈ subscriptions w
               ∧ channel s = owner v ∧ subscriber s = uid).
  { rewrite cond_true_false, bson_in_spec. unfold subscribers_of. split.
    - intros (uid & s & Hu & Hs & Hby). apply list_elem_of_filter in Hs as [Hch Hs].
      by exists uid, s.
    - intros (uid & s & Hu & Hs & Hch & Hby). exists uid, s.
      split; [done |]. split; [| done]. by apply list_elem_of_filter. }
  assert (Hdetails : ∃ d, video_details user o w = [d]) by
    (unfold video_details; rewrite Hv; eauto).
  destruct Hdetails as [d Hd]. exists d.
  split; [exact Hd |].
  pose proof Hd as Hd'. unfold video_details in Hd'. rewrite Hv in Hd'.
  injection Hd' as Hd'.
  assert (Hlike_d : isLiked d = true
    ↔ ∃ uid l, user = Some uid ∧ l ∈ likes w ∧ video l = o ∧ likedBy l = uid)
    by (by rewrite <- Hd').
  assert (Howner_d : ∀ ov, v_owner d = Some ov →
    o_id ov = owner v
    ∧ (isSubscribed ov = true
         ↔ ∃ uid s, user = Some uid ∧ s ∈ subscriptions w
                    ∧ channel s = owner v ∧ subscriber s = uid)).
  { intros ov. rewrite <- Hd'. cbn [v_owner]. unfold owner_lookup.
    destruct (users w !! owner v) as [u |]; [| done].
    cbn. intros [= <-]. cbn [o_id isSubscribed]. by split. }
  split; [exact Hlike_d |]. split; [| split; [| split]].
  - intros u Hu.
    assert (Hsome : ∃ ov, v_owner d = Some ov).
    { rewrite <- Hd'. cbn [v_owner]. unfold owner_lookup. rewrite Hu. cbn. eauto. }
    destruct Hsome as [ov Hov]. exists ov. split; [done |]. by apply Howner_d.
  - intros ->. split.
    + apply not_true_is_false. rewrite Hlike_d. by intros (uid & l & Hu & _).
    + intros ov Hov. apply not_true_is_false.
      destruct (Howner_d ov Hov) as [_ Hiff]. rewrite Hiff.
      by intros (uid & s & Hu & _).
  - intros uid u -> Hu. eexists.
    rewrite (getVideoById_run videoId o uid u w Hid Hu). by rewrite Hd.
  - intros w' resp Hrun. rewrite <- Hd. by eapply getVideoById_response.
Qed.

Lemma video_details_flags_witness :
  ∃ d,
    video_details (Some bob) 1%N demo_world = [d]
    ∧ (isLiked d = true
         ↔ ∃ uid l, Some bob = Some uid ∧ l ∈ likes demo_world
                    ∧ video l = 1%N ∧ likedBy l = uid)
    ∧ (∀ u, users demo_world !! owner video1 = Some u →
         ∃ ov, v_owner d = Some ov
               ∧ o_id ov = owner video1
               ∧ (isSubscribed ov = true
                    ↔ ∃ uid s, Some bob = Some uid ∧ s ∈ subscriptions demo_world
                               ∧ channel s = owner video1 ∧ subscriber s = uid))
    ∧ (Some bob = None →
         isLiked d = false ∧ ∀ ov, v_owner d = Some ov → isSubscribed ov = false)
    ∧ (∀ uid u, Some bob = Some uid → users demo_world !! uid = Some u →
         ∃ w', getVideoById id1 (Some bob) demo_world
                 = (w', Return {| r_video := [d];
                                  r_watchHistory := watchHistory u ++ [1%N] |}))
    ∧ (∀ w' resp, getVideoById id1 (Some bob) demo_world = (w', Return resp) →
                  r_video resp = [d]).
Proof.
  apply (video_details_flags (Some bob) id1 1%N video1 demo_world); reflexivity.
Defined.

(** The documents of the concrete world: bob likes the first video and is
    subscribed to its owner, so both flags are set for him; for a request
    without a caller identity neither is. *)
Lemma video_details_on_demo_world :
  video_details (Some bob) 1%N demo_world = [demo_view_bob]
  ∧ (getVideoById id1 (Some bob) demo_world).2
    = Return {| r_video := [demo_view_bob]; r_watchHistory := [1; 2; 1; 1]%N |}
  ∧ video_details (Some alice) 1%N demo_world = [demo_view]
  ∧ video_details None 1%N demo_world = [demo_view].
Proof. repeat split; reflexivity. Qed.

(** *** getAllVideos *)

Section Sorted.
Context {A B : Type} (R : relation A) (R' : relation B).

Lemma StronglySorted_sublist (l1 l2 : list A) :
  l1 `sublist_of` l2 → StronglySorted R l2 → StronglySorted R l1.
Proof.
  induction 1 as [| x l1 l2 Hsub IH | x l1 l2 Hsub IH]; intros Hs.
  - constructor.
  - apply StronglySorted_inv in Hs as [Hs Hall]. constructor; [by apply IH |].
    rewrite Forall_forall in Hall. apply Forall_forall. intros y Hy.
    apply Hall. by eapply elem_of_sublist.
  - apply StronglySorted_inv in Hs as [Hs _]. by apply IH.
Qed.

Lemma StronglySorted_omap (f : A → option B) (l : list A) :
  (∀ x y x' y', f x = Some x' → f y = Some y' → R x y → R' x' y') →
  StronglySorted R l → StronglySorted R' (omap f l).
Proof.
  intros Hf. induction 1 as [| x l Hs IH Hall]; [constructor |].
  cbn. destruct (f x) as [x' |] eqn:Hx; [| done]. constructor; [done |].
  rewrite Forall_forall in Hall. apply Forall_forall. intros y' Hy'.
  apply list_elem_of_omap in Hy' as (y & Hy & Hfy). eauto.
Qed.
End Sorted.

Lemma bytes_leb_total s t : bytes_leb s t = true ∨ bytes_leb t s = true.
Proof.
  revert t. induction s as [| a s IH]; intros [| b t]; cbn; auto.
  destruct (N.ltb_spec (N_of_ascii a) (N_of_ascii b)); [by left |].
  destruct (N.ltb_spec (N_of_ascii b) (N_of_ascii a)); [by right |].
  rewrite (proj2 (N.eqb_eq (N_of_ascii a) (N_of_ascii b))) by lia.
  rewrite (proj2 (N.eqb_eq (N_of_ascii b) (N_of_ascii a))) by lia.
  apply IH.
Qed.

Lemma bytes_leb_trans s t u :
  bytes_leb s t = true → bytes_leb t u = true → bytes_leb s u = true.
Proof.
  revert t u. induction s as [| a s IH]; intros [| b t] [| c u]; cbn; try done.
  destruct (N.ltb_spec (N_of_ascii a) (N_of_ascii b)) as [Hab | Hab];
    destruct (N.ltb_spec (N_of_ascii b) (N_of_ascii c)) as [Hbc | Hbc];
    destruct (N.eqb_spec (N_of_ascii a) (N_of_ascii b)) as [Eab | Eab];
    destruct (N.eqb_spec (N_of_ascii b) (N_of_ascii c)) as [Ebc | Ebc];
    try done; try lia; intros H1 H2.
  - by rewrite (proj2 (N.ltb_lt _ _)) by lia.
  - by rewrite (proj2 (N.ltb_lt _ _)) by lia.
  - by rewrite (proj2 (N.ltb_lt _ _)) by lia.
  - rewrite (proj2 (N.ltb_ge _ _)) by lia.
    rewrite (proj2 (N.eqb_eq _ _)) by lia. by eapply IH.
Qed.

Lemma value_leb_total a b : value_leb a b = true ∨ value_leb b a = true.
Proof.
  destruct a, b; cbn; auto.
  - rewrite !Qle_bool_iff. destruct (Qlt_le_dec q q0); [left | by right].
    by apply Qlt_le_weak.
  - apply bytes_leb_total.
  - rewrite !N.leb_le. lia.
  - destruct b0, b; auto.
  - rewrite !Z.leb_le. lia.
Qed.

Lemma value_leb_trans a b c :
  value_leb a b = true → value_leb b c = true → value_leb a c = true.
Proof.
  destruct a, b, c; cbn; try done.
  - rewrite !Qle_bool_iff. apply Qle_trans.
  - apply bytes_leb_trans.
  - rewrite !N.leb_le. lia.
  - destruct b0, b1, b; done.
  - rewrite !Z.leb_le. lia.
Qed.

#[local] Instance sort_order_trans field asc : Transitive (sort_order field asc).
Proof.
  intros a b c. unfold sort_order. destruct asc; intros H1 H2;
    by eapply value_leb_trans.
Qed.

#[local] Instance sort_order_total field asc : Total (sort_order field asc).
Proof. intros a b. unfold sort_order. destruct asc; apply value_leb_total. Qed.

(** The stages of the pipeline when the request names no search text, no
    owner and no sort. *)
Lemma getAllVideos_plain_run search q w :
  truthy (query q) = false →
  truthy (userId q) = false →
  truthy (sortBy q) && truthy (sortType q) = false →
  getAllVideos search q w =
    (w, Return (aggregatePaginate (page q) (limit q)
          (length
             (filter (λ d : N * Video, isPublished d.2 = true)
                (map_to_list (videos w))))
          (omap (join_owner w)
             (merge_sort (sort_order "createdAt" false)
                (filter (λ d, isPublished d.2 = true) (map_to_list (videos w))))))).
Proof.
  intros Hq Hu Hs. unfold getAllVideos. run_handler.
  rewrite Hq, Hu, Hs. unfold sort_stage.
  by rewrite (Permutation_length (merge_sort_Permutation _ _)).
Qed.

(** C2. With no search text, no owner filter and no sort parameters,
    [getAllVideos] returns a page, changes nothing, and every document of the
    page is a stored video whose published flag is true; the documents are in
    descending order of creation time. *)
Theorem getAllVideos_default search q w :
  truthy (query q) = false →
  truthy (userId q) = false →
  truthy (sortBy q) && truthy (sortType q) = false →
  ∃ p,
    getAllVideos search q w = (w, Return p)
    ∧ Forall (λ d, videos w !! fd_id d = Some (fd_video d)
                   ∧ isPublished (fd_video d) = true) (docs p)
    ∧ StronglySorted (λ a b, createdAt (fd_video b) ≤ createdAt (fd_video a))
        (docs p).
Proof.
  intros Hq Hu Hs. eexists. split; [by apply getAllVideos_plain_run |].
  unfold aggregatePaginate. cbn [docs].
  set (published := filter (λ d : N * Video, isPublished d.2 = true)
                      (map_to_list (videos w))).
  set (sorted := merge_sort (sort_order "createdAt" false) published).
  split.
  - apply Forall_take, Forall_drop, Forall_forall. intros d Hd.
    apply list_elem_of_omap in Hd as ([i v] & Hin & Hjoin).
    unfold join_owner in Hjoin. cbn in Hjoin.
    destruct (users w !! owner v); [| done]. cbn in Hjoin.
    inversion Hjoin; subst d; clear Hjoin. cbn.
    subst sorted. rewrite merge_sort_Permutation in Hin. subst published.
    apply list_elem_of_filter in Hin as [Hpub Hin].
    by apply elem_of_map_to_list in Hin.
  - eapply StronglySorted_sublist; [apply sublist_take |].
    eapply StronglySorted_sublist; [apply sublist_drop |].
    apply (StronglySorted_omap (sort_order "createdAt" false)).
    + intros [i v] [j v'] x' y' Hx Hy HR. unfold join_owner in Hx, Hy.
      cbn in Hx, Hy.
      destruct (users w !! owner v); [| done].
      destruct (users w !! owner v'); [| done].
      cbn in Hx, Hy. inversion Hx; inversion Hy; subst.
      cbn in HR. by apply Z.leb_le in HR.
    + apply StronglySorted_merge_sort; apply _.
Qed.

Lemma getAllVideos_default_witness :
  ∃ p,
    getAllVideos demo_search
      {| page := None; limit := None; query := None; sortBy := None;
         sortType := None; userId := None |} demo_world = (demo_world, Return p)
    ∧ Forall (λ d, videos demo_world !! fd_id d = Some (fd_video d)
                   ∧ isPublished (fd_video d) = true) (docs p)
    ∧ StronglySorted (λ a b, createdAt (fd_video b) ≤ createdAt (fd_video a))
        (docs p).
Proof.
  apply (getAllVideos_default demo_search
           {| page := None; limit := None; query := None; sortBy := None;
              sortType := None; userId := None |} demo_world); reflexivity.
Defined.

(** *** deleteVideo, and a fetch after it *)

Lemma deleteVideo_owner videoId o v w :
  castObjectId videoId = Some o →
  videos w !! o = Some v →
  deleteVideo videoId (Some (owner v)) w =
    (record (EvDestroy (public_id (thumbnail v)))
       (with_assets (λ a, a ∖ {[public_id (thumbnail v)]})
          (record (EvDestroy (public_id (videoFile v)))
             (with_assets (λ a, a ∖ {[public_id (videoFile v)]})
                (record (EvVideoDelete o)
                   (with_videos (delete o)
                      (record (EvUserUpdateMany o)
                         (with_users
                            (fmap (λ u, if bool_decide (o ∈ watchHistory u)
                                        then pull o u else u)) w))))))),
     Return v).
Proof.
  intros Hid Hv. unfold deleteVideo. run_handler. rewrite Hid. settle.
  rewrite Hv, not_owner_same. cbn -[delete lookup fmap]. rewrite Hv. done.
Qed.

(** The half of C3 the code keeps: after the owner's [deleteVideo] the record
    is gone and no watch-history holds the identifier. *)
Lemma deleteVideo_prunes videoId o v w :
  castObjectId videoId = Some o →
  videos w !! o = Some v →
  ∃ w', deleteVideo videoId (Some (owner v)) w = (w', Return v)
        ∧ videos w' !! o = None
        ∧ ∀ uid u, users w' !! uid = Some u → o ∉ watchHistory u.
Proof.
  intros Hid Hv. eexists. split; [by apply deleteVideo_owner |].
  cbn -[delete lookup fmap]. split; [apply lookup_delete_eq |].
  intros uid u. rewrite lookup_fmap.
  destruct (users w !! uid) as [u0 |]; [| done]. cbn.
  intros [= <-]. case_bool_decide as Hin; [| done].
  unfold pull. cbn. rewrite list_elem_of_filter. tauto.
Qed.

(** A fetch of an identifier that names no video, by a stored user: the
    aggregate is the empty array, which the test [!video] lets through. *)
Lemma getVideoById_missing videoId o uid u w :
  castObjectId videoId = Some o →
  videos w !! o = None →
  users w !! uid = Some u →
  ∃ w', getVideoById videoId (Some uid) w
          = (w', Return {| r_video := []; r_watchHistory := watchHistory u ++ [o] |})
        ∧ watchHistory <$> users w' !! uid = Some (watchHistory u ++ [o]).
Proof.
  intros Hid Hv Hu. eexists. split.
  - rewrite (getVideoById_run videoId o uid u w Hid Hu).
    unfold video_details. by rewrite Hv.
  - cbn -[alter lookup]. by rewrite lookup_alter_eq, Hu.
Qed.

(** C3, on the code.  The owner deletes the first video of the concrete
    world: the record is gone and bob's watch-history no longer holds it.
    The fetch that follows does not throw the 404 the source writes: it
    returns an empty [video] array and puts the identifier back at the end of
    the caller's watch-history. *)
Theorem fetch_after_delete :
  (deleteVideo id1 (Some alice) demo_world).2 = Return video1
  ∧ videos (deleteVideo id1 (Some alice) demo_world).1 !! 1%N = None
  ∧ watchHistory <$> users (deleteVideo id1 (Some alice) demo_world).1 !! bob
    = Some [2%N]
  ∧ (getVideoById id1 (Some bob) (deleteVideo id1 (Some alice) demo_world).1).2
    = Return {| r_video := []; r_watchHistory := [2; 1]%N |}
  ∧ (getVideoById id1 (Some bob) (deleteVideo id1 (Some alice) demo_world).1).2
    ≠ Throw (ApiError 404 "No video found")
  ∧ watchHistory <$>
      users (getVideoById id1 (Some bob)
               (deleteVideo id1 (Some alice) demo_world).1).1 !! bob
    = Some [2; 1]%N.
Proof. vm_compute. repeat split; congruence. Qed.

(** *** updateVideo *)

(** An owner's update that brings a new thumbnail, when the upload
    succeeds. *)
Lemma updateVideo_thumbnail_run upload videoId o v title' description' path r w :
  castObjectId videoId = Some o →
  videos w !! o = Some v →
  truthy (Some path) = true →
  upload path = Some r →
  updateVideo upload videoId title' description' (Some path) (Some (owner v)) w =
    (record (EvVideoUpdate o)
       (with_videos (alter (set_details title' description' (media_of r)) o)
          (record (EvDestroy (public_id (thumbnail v)))
             (with_assets (λ a, a ∖ {[public_id (thumbnail v)]})
                (record (EvUpload path)
                   (with_assets (λ a, {[up_public_id r]} ∪ a) w))))),
     Return (set_details title' description' (media_of r) v)).
Proof.
  intros Hid Hv Hpath Hup. unfold updateVideo. run_handler. rewrite Hid. settle.
  rewrite Hv, not_owner_same, Hpath. rewrite !andb_false_r.
  cbn -[alter lookup]. rewrite Hv, Hup. cbn -[alter lookup].
  by rewrite lookup_alter_eq, Hv.
Qed.

(** The order of the writes on that path: upload, removal of the old asset,
    and only then the write of the record. *)
Lemma updateVideo_thumbnail_log upload videoId o v title' description' path r w :
  castObjectId videoId = Some o →
  videos w !! o = Some v →
  truthy (Some path) = true →
  upload path = Some r →
  log (updateVideo upload videoId title' description' (Some path)
         (Some (owner v)) w).1
    = log w ++ [EvUpload path; EvDestroy (public_id (thumbnail v)); EvVideoUpdate o].
Proof.
  intros Hid Hv Hpath Hup.
  rewrite (updateVideo_thumbnail_run upload videoId o v title' description'
             path r w Hid Hv Hpath Hup).
  cbn. by rewrite <- !app_assoc.
Qed.

(** C4, on the code.  The owner of the first video of the concrete world
    sends a new thumbnail: the old asset is removed from the asset store
    before the record is written. *)
Theorem updateVideo_removes_old_asset_first :
  (updateVideo demo_upload id1 None None (Some "/tmp/cover.png") (Some alice)
     demo_world).2
    = Return (set_details None None
                {| url := Some "http://cdn/cover.png"; public_id := "cover" |} video1)
  ∧ log (updateVideo demo_upload id1 None None (Some "/tmp/cover.png") (Some alice)
           demo_world).1
    = [EvUpload "/tmp/cover.png"; EvDestroy "t1"; EvVideoUpdate 1%N].
Proof. split; reflexivity. Qed.

(** An owner's update that brings no thumbnail. *)
Lemma updateVideo_text_run upload videoId o v title' description' path w :
  castObjectId videoId = Some o →
  videos w !! o = Some v →
  truthy path = false →
  truthy title' || truthy description' = true →
  updateVideo upload videoId title' description' path (Some (owner v)) w =
    (record (EvVideoUpdate o)
       (with_videos
          (alter (set_details title' description'
                    {| url := None; public_id := public_id (thumbnail v) |}) o) w),
     Return (set_details title' description'
               {| url := None; public_id := public_id (thumbnail v) |} v)).
Proof.
  intros Hid Hv Hpath Hany. unfold updateVideo. run_handler. rewrite Hid. settle.
  rewrite Hv, not_owner_same, Hpath.
  replace (negb (truthy title') && negb (truthy description') && negb false)
    with false by (destruct (truthy title'), (truthy description'); done).
  cbn -[alter lookup]. by rewrite lookup_alter_eq, Hv.
Qed.


(** C5, on the code.  The owner of the first video of the concrete world
    sends a new title and no thumbnail: the stored thumbnail keeps its store
    identifier and loses its url. *)
Theorem updateVideo_title_only_drops_url :
  thumbnail <$> videos demo_world !! 1%N
    = Some {| url := Some "http://cdn/t1.png"; public_id := "t1" |}
  ∧ thumbnail <$>
      videos (updateVideo demo_upload id1 (Some "New") None None (Some alice)
                demo_world).1 !! 1%N
    = Some {| url := None; public_id := "t1" |}
  ∧ title <$>
      videos (updateVideo demo_upload id1 (Some "New") None None (Some alice)
                demo_world).1 !! 1%N
    = Some "New"
  ∧ description <$>
      videos (updateVideo demo_upload id1 (Some "New") None None (Some alice)
                demo_world).1 !! 1%N
    = Some "D".
Proof. repeat split; reflexivity. Qed.

(** *** publishAVideo *)

(** The part of C7 the code keeps: a title or a description that is present
    and blank stops the request before anything is written. *)
Lemma publishAVideo_blank upload title' description' files user w :
  blank title' || blank description' = true →
  publishAVideo upload title' description' files user w
    = (w, Throw (ApiError 400 "All fields are required")).
Proof.
  intros Hb. unfold publishAVideo. run_handler. cbn [existsb].
  rewrite orb_false_r, Hb. done.
Qed.

(** C7, on the code.  A request with no title at all passes the blank-field
    test: both files are uploaded to the asset store, and only then the
    creation of the record is reached. *)
Theorem publishAVideo_absent_title_uploads :
  (publishAVideo demo_upload None (Some "D") (Some demo_files) (Some alice)
     demo_world).2
    ≠ Throw (ApiError 400 "All fields are required")
  ∧ log (publishAVideo demo_upload None (Some "D") (Some demo_files) (Some alice)
           demo_world).1
    = [EvUpload "/tmp/clip.mp4"; EvUpload "/tmp/cover.png"]
  ∧ bool_decide ("clip" ∈ assets demo_world) = false
  ∧ bool_decide ("clip" ∈ assets
       (publishAVideo demo_upload None (Some "D") (Some demo_files) (Some alice)
          demo_world).1) = true
  ∧ bool_decide ("cover" ∈ assets
       (publishAVideo demo_upload None (Some "D") (Some demo_files) (Some alice)
          demo_world).1) = true.
Proof. vm_compute. repeat split; congruence. Qed.

(** * Further properties of the controller *)

(** ** Requests stopped before any read or write *)

(** A video identifier that is not well-formed stops each of the four
    handlers that take one, with status 400, before the store is touched. *)
Theorem malformed_id_rejected upload videoId (user : option ObjectId)
    title' description' thumbnailLocalPath w :
  castObjectId videoId = None →
  getVideoById videoId user w = (w, Throw (ApiError 400 "Invalid Video Id"))
  ∧ updateVideo upload videoId title' description' thumbnailLocalPath user w
    = (w, Throw (ApiError 400 "Invalid video Id"))
  ∧ deleteVideo videoId user w = (w, Throw (ApiError 400 "Invalid videoId"))
  ∧ togglePublishStatus videoId user w
    = (w, Throw (ApiError 400 "Invalid videoId")).
Proof.
  intros Hid. repeat split.
  - unfold getVideoById. run_handler. by rewrite Hid.
  - unfold updateVideo. run_handler. by rewrite Hid.
  - unfold deleteVideo. run_handler. by rewrite Hid.
  - unfold togglePublishStatus. run_handler. by rewrite Hid.
Qed.

Lemma malformed_id_rejected_witness :
  getVideoById "not-an-id" (Some alice) demo_world
    = (demo_world, Throw (ApiError 400 "Invalid Video Id"))
  ∧ updateVideo demo_upload "not-an-id" (Some "X") None None (Some alice) demo_world
    = (demo_world, Throw (ApiError 400 "Invalid video Id"))
  ∧ deleteVideo "not-an-id" (Some alice) demo_world
    = (demo_world, Throw (ApiError 400 "Invalid videoId"))
  ∧ togglePublishStatus "not-an-id" (Some alice) demo_world
    = (demo_world, Throw (ApiError 400 "Invalid videoId")).
Proof.
  apply (malformed_id_rejected demo_upload "not-an-id" (Some alice) (Some "X")
           None None demo_world). reflexivity.
Defined.

(** [togglePublishStatus] is the one handler that looks for the record
    before it looks at the caller: an identifier of no stored video gives
    status 401 "Video not found" to every caller, an absent one too. *)
Theorem togglePublishStatus_missing videoId o (user : option ObjectId) w :
  castObjectId videoId = Some o →
  videos w !! o = None →
  togglePublishStatus videoId user w = (w, Throw (ApiError 401 "Video not found")).
Proof.
  intros Hid Hv. unfold togglePublishStatus. run_handler. rewrite Hid. settle.
  by rewrite Hv.
Qed.

Lemma togglePublishStatus_missing_witness :
  togglePublishStatus id9 None demo_world
    = (demo_world, Throw (ApiError 401 "Video not found")).
Proof.
  apply (togglePublishStatus_missing id9 9%N None demo_world); reflexivity.
Defined.

(** An owner's [updateVideo] that carries no title, no description and no
    thumbnail file (empty strings count as none) is refused with status 400
    and changes nothing. *)
Theorem updateVideo_nothing_to_update upload videoId o v
    title' description' thumbnailLocalPath w :
  castObjectId videoId = Some o →
  videos w !! o = Some v →
  truthy title' = false →
  truthy description' = false →
  truthy thumbnailLocalPath = false →
  updateVideo upload videoId title' description' thumbnailLocalPath
      (Some (owner v)) w
    = (w, Throw (ApiError 400 "Atleast one field should be passed to update")).
Proof.
  intros Hid Hv Ht Hd Hp. unfold updateVideo. run_handler. rewrite Hid. settle.
  by rewrite Hv, not_owner_same, Ht, Hd, Hp.
Qed.

Lemma updateVideo_nothing_to_update_witness :
  updateVideo demo_upload id1 (Some "") None None (Some alice) demo_world
    = (demo_world,
       Throw (ApiError 400 "Atleast one field should be passed to update")).
Proof.
  apply (updateVideo_nothing_to_update demo_upload id1 1%N video1 (Some "")
           None None demo_world); reflexivity.
Defined.

(** When the upload of the new thumbnail fails, the owner's [updateVideo]
    throws status 401; the upload was attempted, and nothing else happened:
    the record, the old thumbnail asset and the rest of the asset store are
    as before. *)
Theorem updateVideo_upload_fails upload videoId o v title' description' path w :
  castObjectId videoId = Some o →
  videos w !! o = Some v →
  truthy (Some path) = true →
  upload path = None →
  ∃ w',
    updateVideo upload videoId title' description' (Some path) (Some (owner v)) w
      = (w', Throw (ApiError 401 "Error while uploading thumbnail"))
    ∧ videos w' = videos w
    ∧ users w' = users w
    ∧ assets w' = assets w
    ∧ log w' = log w ++ [EvUpload path].
Proof.
  intros Hid Hv Hpath Hup. eexists. split.
  - unfold updateVideo. run_handler. rewrite Hid. settle.
    rewrite Hv, not_owner_same, Hpath. rewrite !andb_false_r.
    cbn -[alter lookup]. rewrite Hv, Hup. reflexivity.
  - done.
Qed.

Lemma updateVideo_upload_fails_witness :
  ∃ w',
    updateVideo demo_upload id1 None None (Some "/tmp/broken.png") (Some alice)
      demo_world
      = (w', Throw (ApiError 401 "Error while uploading thumbnail"))
    ∧ videos w' = videos demo_world
    ∧ users w' = users demo_world
    ∧ assets w' = assets demo_world
    ∧ log w' = log demo_world ++ [EvUpload "/tmp/broken.png"].
Proof.
  apply (updateVideo_upload_fails demo_upload id1 1%N video1 None None
           "/tmp/broken.png" demo_world); reflexivity.
Defined.

(** ** updateVideo: what a successful update changes *)

Lemma lookup_alter_stored {A} (f : A → A) (o : N) (m : gmap N A) (x : A) :
  m !! o = Some x → alter f o m !! o = Some (f x).
Proof. intros Hx. by rewrite lookup_alter_eq, Hx. Qed.



(** The test on the three inputs asks only that one of them is truthy: an
    empty title sent along with a description passes it and is written, so
    the stored title becomes the empty string. *)
Theorem updateVideo_empty_title_written upload videoId o v description' path w :
  castObjectId videoId = Some o →
  videos w !! o = Some v →
  truthy description' = true →
  truthy path = false →
  ∃ w' v',
    updateVideo upload videoId (Some "") description' path (Some (owner v)) w
      = (w', Return v')
    ∧ videos w' !! o = Some v'
    ∧ title v' = "".
Proof.
  intros Hid Hv Hd Hpath. eexists _, _. split.
  - apply updateVideo_text_run; [done | done | done |]. by rewrite Hd.
  - cbn -[alter lookup]. split; [by apply lookup_alter_stored | done].
Qed.

Lemma updateVideo_empty_title_written_witness :
  ∃ w' v',
    updateVideo demo_upload id1 (Some "") (Some "E") None (Some alice) demo_world
      = (w', Return v')
    ∧ videos w' !! 1%N = Some v'
    ∧ title v' = "".
Proof.
  apply (updateVideo_empty_title_written demo_upload id1 1%N video1 (Some "E")
           None demo_world); reflexivity.
Defined.

(** ** deleteVideo: what a successful delete changes *)




Lemma deleteVideo_absent_record videoId o (uid : ObjectId) w :
  castObjectId videoId = Some o →
  videos w !! o = None →
  deleteVideo videoId (Some uid) w
    = (w, Throw (ApiError 400
             "You can't delete video as you are not owner of this video")).
Proof.
  intros Hid Hv. unfold deleteVideo. run_handler. rewrite Hid. settle.
  by rewrite Hv, not_owner_missing.
Qed.

(** Deleting is not repeatable: the owner's second [deleteVideo] of the same
    identifier finds no record, is answered with the ownership error, and
    leaves the world of the first delete as it is. *)
Theorem deleteVideo_twice videoId o v w :
  castObjectId videoId = Some o →
  videos w !! o = Some v →
  ∃ w1,
    deleteVideo videoId (Some (owner v)) w = (w1, Return v)
    ∧ deleteVideo videoId (Some (owner v)) w1
      = (w1, Throw (ApiError 400
               "You can't delete video as you are not owner of this video")).
Proof.
  intros Hid Hv. eexists. split; [by apply deleteVideo_owner |].
  apply (deleteVideo_absent_record videoId o); [done |].
  cbn -[delete lookup fmap]. apply lookup_delete_eq.
Qed.

Lemma deleteVideo_twice_witness :
  ∃ w1,
    deleteVideo id1 (Some alice) demo_world = (w1, Return video1)
    ∧ deleteVideo id1 (Some alice) w1
      = (w1, Throw (ApiError 400
               "You can't delete video as you are not owner of this video")).
Proof.
  apply (deleteVideo_twice id1 1%N video1 demo_world); reflexivity.
Defined.

(** ** getVideoById: what a call reads and what it writes *)

(** The documents are computed before the view is counted: the video a call
    returns shows the view count from before this call, while the
    watch-history it returns already ends with this visit.  Nothing in the
    call looks at the published flag or at who owns the video. *)
Theorem getVideoById_returns_old_views videoId o v uid u w :
  castObjectId videoId = Some o →
  videos w !! o = Some v →
  users w !! uid = Some u →
  ∃ w' d,
    getVideoById videoId (Some uid) w
      = (w', Return {| r_video := [d]; r_watchHistory := watchHistory u ++ [o] |})
    ∧ v_id d = o
    ∧ v_views d = views v
    ∧ views <$> videos w' !! o = Some (views v + 1)
    ∧ (v_title d, v_description d, v_isPublished d, v_videoFile d)
      = (title v, description v, isPublished v, videoFile v)
    ∧ likesCount d = length (filter (λ l, video l = o) (likes w)).
Proof.
  intros Hid Hv Hu. eexists _, _. split.
  - rewrite (getVideoById_run videoId o uid u w Hid Hu).
    unfold video_details. rewrite Hv. reflexivity.
  - cbn -[alter lookup]. rewrite !lookup_alter_eq, Hv. done.
Qed.

Lemma getVideoById_returns_old_views_witness :
  ∃ w' d,
    getVideoById id2 (Some alice) demo_world
      = (w', Return {| r_video := [d]; r_watchHistory := [] ++ [2%N] |})
    ∧ v_id d = 2%N
    ∧ v_views d = 0
    ∧ views <$> videos w' !! 2%N = Some (0 + 1)
    ∧ (v_title d, v_description d, v_isPublished d, v_videoFile d)
      = ("U", "E", false, videoFile video2)
    ∧ likesCount d = length (filter (λ l, video l = 2%N) (likes demo_world)).
Proof.
  apply (getVideoById_returns_old_views id2 2%N video2 alice alice_doc demo_world);
    reflexivity.
Defined.

(** A call by a stored user writes two things and nothing else: the view
    count of the video named (a missing video stays missing) and the
    watch-history of the caller. *)
Theorem getVideoById_frame videoId o uid u w :
  castObjectId videoId = Some o →
  users w !! uid = Some u →
  ∃ w' resp,
    getVideoById videoId (Some uid) w = (w', Return resp)
    ∧ videos w' !! o = inc_views <$> videos w !! o
    ∧ (∀ i, i ≠ o → videos w' !! i = videos w !! i)
    ∧ users w' !! uid = Some (set_watchHistory (watchHistory u ++ [o]) u)
    ∧ (∀ j, j ≠ uid → users w' !! j = users w !! j)
    ∧ (likes w', subscriptions w', assets w')
      = (likes w, subscriptions w, assets w)
    ∧ log w' = log w ++ [EvVideoUpdate o; EvUserSave uid].
Proof.
  intros Hid Hu. eexists _, _.
  split; [by apply getVideoById_run |].
  cbn -[alter lookup].
  split; [by rewrite lookup_alter_eq |].
  split; [intros i Hi; by rewrite lookup_alter_ne |].
  split; [by apply lookup_alter_stored |].
  split; [intros j Hj; by rewrite lookup_alter_ne |].
  split; [done |]. by rewrite <- app_assoc.
Qed.

Lemma getVideoById_frame_witness :
  ∃ w' resp,
    getVideoById id1 (Some bob) demo_world = (w', Return resp)
    ∧ videos w' !! 1%N = inc_views <$> videos demo_world !! 1%N
    ∧ (∀ i, i ≠ 1%N → videos w' !! i = videos demo_world !! i)
    ∧ users w' !! bob = Some (set_watchHistory (watchHistory bob_doc ++ [1%N]) bob_doc)
    ∧ (∀ j, j ≠ bob → users w' !! j = users demo_world !! j)
    ∧ (likes w', subscriptions w', assets w')
      = (likes demo_world, subscriptions demo_world, assets demo_world)
    ∧ log w' = log demo_world ++ [EvVideoUpdate 1%N; EvUserSave bob].
Proof.
  apply (getVideoById_frame id1 1%N bob bob_doc demo_world); reflexivity.
Defined.

(** A call whose caller is absent, or is no stored user, fails on the read
    of the watch-history; by then the view has been counted, and it stays
    counted. *)
Theorem getVideoById_failed_call_counts_view videoId o v (user : option ObjectId) w :
  castObjectId videoId = Some o →
  videos w !! o = Some v →
  user ≫= (λ uid, users w !! uid) = None →
  ∃ w',
    getVideoById videoId user w = (w', Throw TypeError)
    ∧ views <$> videos w' !! o = Some (views v + 1)
    ∧ users w' = users w.
Proof.
  intros Hid Hv Hu. eexists.
  split; [by apply getVideoById_stranger |].
  cbn -[alter lookup]. by rewrite lookup_alter_eq, Hv.
Qed.

Lemma getVideoById_failed_call_counts_view_witness :
  ∃ w',
    getVideoById id1 None demo_world = (w', Throw TypeError)
    ∧ views <$> videos w' !! 1%N = Some (5 + 1)
    ∧ users w' = users demo_world.
Proof.
  apply (getVideoById_failed_call_counts_view id1 1%N video1 None demo_world);
    reflexivity.
Defined.

(** ** getAllVideos: every request *)

Lemma sort_stage_elem field ascending (l : list (ObjectId * Video)) d :
  d ∈ sort_stage field ascending l ↔ d ∈ l.
Proof. unfold sort_stage. by rewrite merge_sort_Permutation. Qed.

Lemma sort_stage_length field ascending (l : list (ObjectId * Video)) :
  length (sort_stage field ascending l) = length l.
Proof. unfold sort_stage. by rewrite merge_sort_Permutation. Qed.

Lemma omap_length_le {A B} (f : A → option B) (l : list A) :
  (length (omap f l) ≤ length l)%nat.
Proof.
  induction l as [| x l IH]; [done |]. cbn. destruct (f x); cbn; lia.
Qed.

(** The documents of a listing before the join and the pagination, for a
    request whose owner filter, if any, is well-formed. *)
Lemma getAllVideos_run search q w :
  (truthy (userId q) = true → is_Some (castObjectId (default "" (userId q)))) →
  ∃ stage,
    getAllVideos search q w
      = (w, Return (aggregatePaginate (page q) (limit q) (length stage)
                      (omap (join_owner w) stage)))
    ∧ stage =
        (let matched :=
           filter (λ d : N * Video, isPublished d.2 = true)
             (let searched :=
                if truthy (query q)
                then search (default "" (query q)) (map_to_list (videos w))
                else map_to_list (videos w) in
              if truthy (userId q)
              then filter (λ d : N * Video,
                             Some (owner d.2) = castObjectId (default "" (userId q)))
                     searched
              else searched) in
         if truthy (sortBy q) && truthy (sortType q)
         then sort_stage (default "" (sortBy q))
                (bool_decide (sortType q = Some "asc")) matched
         else sort_stage "createdAt" false matched).
Proof.
  intros Hvalid. eexists. split; [| reflexivity].
  unfold getAllVideos. run_handler.
  destruct (truthy (userId q)) eqn:Hu; [| reflexivity].
  destruct (Hvalid eq_refl) as [o Ho]. rewrite Ho. cbn beta iota zeta delta [negb].
  assert (Hfilter : ∀ l : list (N * Video),
            filter (λ d, owner d.2 = o) l = filter (λ d, Some (owner d.2) = Some o) l).
  { intros l. apply list_filter_iff. intros d. split; congruence. }
  by rewrite Hfilter.
Qed.

Lemma getAllVideos_bad_owner search q w :
  truthy (userId q) = true →
  castObjectId (default "" (userId q)) = None →
  getAllVideos search q w = (w, Throw (ApiError 400 "Invalid User Id")).
Proof.
  intros Hu Hid. unfold getAllVideos. run_handler. by rewrite Hu, Hid.
Qed.

Lemma join_owner_Some w (x : ObjectId * Video) d :
  join_owner w x = Some d →
  fd_id d = x.1 ∧ fd_video d = x.2
  ∧ ∃ u, users w !! owner x.2 = Some u
         ∧ ownerDetails d = {| od_id := owner x.2; od_username := username u |}.
Proof.
  unfold join_owner. destruct (users w !! owner x.2) as [u |]; [| done].
  cbn. intros [= <-]. cbn. eauto.
Qed.


(** With a well-formed owner filter every document of the page belongs to
    that owner, whatever the search text and the sort. *)
Theorem getAllVideos_owner_filter search q o w :
  truthy (userId q) = true →
  castObjectId (default "" (userId q)) = Some o →
  ∃ p,
    getAllVideos search q w = (w, Return p)
    ∧ Forall (λ d, owner (fd_video d) = o ∧ isPublished (fd_video d) = true)
        (docs p).
Proof.
  intros Hu Hid.
  destruct (getAllVideos_run search q w) as (stage & Hrun & Hstage);
    [by intros _; rewrite Hid |].
  eexists; split; [exact Hrun |].
  unfold aggregatePaginate; cbn [docs].
  apply Forall_take, Forall_drop, Forall_forall; intros d Hd.
  apply list_elem_of_omap in Hd as (x & Hx & Hjoin).
  apply join_owner_Some in Hjoin as (_ & Hvid & _). rewrite Hvid.
  rewrite Hstage, Hu, Hid in Hx; cbn zeta in Hx.
  destruct (truthy (sortBy q) && truthy (sortType q));
    apply sort_stage_elem in Hx;
    apply list_elem_of_filter in Hx as [Hpub Hx];
    destruct (truthy (query q));
    apply list_elem_of_filter in Hx as [Hown _]; split; congruence.
Qed.

Lemma getAllVideos_owner_filter_witness :
  ∃ p,
    getAllVideos demo_search
      {| page := None; limit := None; query := None; sortBy := None;
         sortType := None; userId := Some "00000000000000000000000a" |}
      demo_world = (demo_world, Return p)
    ∧ Forall (λ d, owner (fd_video d) = alice ∧ isPublished (fd_video d) = true)
        (docs p).
Proof.
  apply (getAllVideos_owner_filter demo_search
           {| page := None; limit := None; query := None; sortBy := None;
              sortType := None; userId := Some "00000000000000000000000a" |}
           alice demo_world); reflexivity.
Defined.





(** For a request with no search text, owner filter or sort: when the first
    page is asked for and the total the page reports fits the limit in
    force, the page lists every stored video that is published and whose
    owner is a stored user. *)
Theorem getAllVideos_first_page_complete search q w :
  truthy (query q) = false →
  truthy (userId q) = false →
  truthy (sortBy q) && truthy (sortType q) = false →
  ∃ p,
    getAllVideos search q w = (w, Return p)
    ∧ (pg_page p = 1 →
       Z.of_nat (totalDocs p) ≤ pg_limit p →
       ∀ i v u,
         videos w !! i = Some v →
         isPublished v = true →
         users w !! owner v = Some u →
         ∃ d, d ∈ docs p ∧ fd_id d = i ∧ fd_video d = v).
Proof.
  intros Hq Hu Hs. eexists. split; [by apply getAllVideos_plain_run |].
  unfold aggregatePaginate. cbn [docs pg_page pg_limit totalDocs].
  intros -> Hfit i v u Hv Hpub Hown.
  change (Z.to_nat ((1 - 1) * _)) with 0%nat. rewrite drop_0.
  rewrite take_ge.
  2: { etransitivity; [apply omap_length_le |].
       rewrite (Permutation_length (merge_sort_Permutation _ _)). lia. }
  exists {| fd_id := i; fd_video := v;
            ownerDetails := {| od_id := owner v; od_username := username u |} |}.
  split; [| done].
  apply list_elem_of_omap. exists (i, v). split.
  - rewrite merge_sort_Permutation. apply list_elem_of_filter. split; [done |].
    by apply elem_of_map_to_list.
  - unfold join_owner. cbn. by rewrite Hown.
Qed.

Lemma getAllVideos_first_page_complete_witness :
  ∃ p,
    getAllVideos demo_search
      {| page := None; limit := None; query := None; sortBy := None;
         sortType := None; userId := None |} demo_world = (demo_world, Return p)
    ∧ (pg_page p = 1 →
       Z.of_nat (totalDocs p) ≤ pg_limit p →
       ∀ i v u,
         videos demo_world !! i = Some v →
         isPublished v = true →
         users demo_world !! owner v = Some u →
         ∃ d, d ∈ docs p ∧ fd_id d = i ∧ fd_video d = v).
Proof.
  apply (getAllVideos_first_page_complete demo_search
           {| page := None; limit := None; query := None; sortBy := None;
              sortType := None; userId := None |} demo_world); reflexivity.
Defined.

(** ** publishAVideo *)

Lemma existsb_blank_false (t d : option string) :
  blank t = false → blank d = false → existsb blank [t; d] = false.
Proof. intros Ht Hd. cbn. by rewrite Ht, Hd. Qed.

(** A request with title, description and both files, whose two uploads
    succeed and whose video file comes back with a duration, by an identified
    caller: a record is created under an identifier that was free, it is
    published, it belongs to the caller, its duration and file references are
    those the asset store reported, and its title and description are stored
    as sent, untrimmed.  No stored video and no user is touched. *)
Theorem publishAVideo_creates upload t d fs pv rest_v pt rest_t rv rt seconds
    uid w :
  blank (Some t) = false →
  blank (Some d) = false →
  f_videoFile fs = Some (pv :: rest_v) →
  f_thumbnail fs = Some (pt :: rest_t) →
  truthy (Some pv) = true →
  truthy (Some pt) = true →
  upload pv = Some rv →
  upload pt = Some rt →
  up_duration rv = Some seconds →
  ∃ w' id v,
    publishAVideo upload (Some t) (Some d) (Some fs) (Some uid) w
      = (w', Return (id, v))
    ∧ videos w !! id = None
    ∧ videos w' = <[id := v]> (videos w)
    ∧ (title v, description v) = (t, d)
    ∧ (owner v, isPublished v, views v) = (uid, true, 0)
    ∧ (duration v, videoFile v, thumbnail v)
      = (seconds, media_of rv, media_of rt)
    ∧ users w' = users w
    ∧ assets w' = {[up_public_id rt]} ∪ ({[up_public_id rv]} ∪ assets w)
    ∧ log w' = log w ++ [EvUpload pv; EvUpload pt; EvVideoCreate id].
Proof.
  intros Ht Hd Hfv Hft Hpv Hpt Huv Hut Hsec.
  exists (record (EvVideoCreate (fresh (dom (videos w))))
            (with_videos
               (<[fresh (dom (videos w)) :=
                   {| title := t; description := d; duration := seconds;
                      videoFile := media_of rv; thumbnail := media_of rt;
                      owner := uid; views := 0; isPublished := true;
                      createdAt := now w |}]>)
               (record (EvUpload pt)
                  (with_assets (λ a, {[up_public_id rt]} ∪ a)
                     (record (EvUpload pv)
                        (with_assets (λ a, {[up_public_id rv]} ∪ a) w)))))).
  eexists _, _. split.
  - unfold publishAVideo, first_path, Video_create. run_handler.
    rewrite (existsb_blank_false _ _ Ht Hd), Hfv, Hft. settle.
    rewrite Hpv, Hpt. settle. cbn -[insert lookup fresh dom].
    rewrite Huv, Hut. cbn -[insert lookup fresh dom].
    rewrite Hsec. cbn -[insert lookup fresh dom].
    rewrite lookup_insert_eq. reflexivity.
  - cbn -[insert lookup fresh dom].
    split; [apply not_elem_of_dom, is_fresh |].
    repeat (split; [done |]). by rewrite <- !app_assoc.
Qed.

Lemma publishAVideo_creates_witness :
  ∃ w' id v,
    publishAVideo demo_upload (Some " T ") (Some "D") (Some demo_files)
      (Some bob) demo_world = (w', Return (id, v))
    ∧ videos demo_world !! id = None
    ∧ videos w' = <[id := v]> (videos demo_world)
    ∧ (title v, description v) = (" T ", "D")
    ∧ (owner v, isPublished v, views v) = (bob, true, 0)
    ∧ (duration v, videoFile v, thumbnail v)
      = (12.5%Q,
         {| url := Some "http://cdn/clip.mp4"; public_id := "clip" |},
         {| url := Some "http://cdn/cover.png"; public_id := "cover" |})
    ∧ users w' = users demo_world
    ∧ assets w' = {["cover"]} ∪ ({["clip"]} ∪ assets demo_world)
    ∧ log w' = log demo_world
               ++ [EvUpload "/tmp/clip.mp4"; EvUpload "/tmp/cover.png";
                   EvVideoCreate id].
Proof.
  apply (publishAVideo_creates demo_upload " T " "D" demo_files
           "/tmp/clip.mp4" [] "/tmp/cover.png" []
           {| up_url := "http://cdn/clip.mp4"; up_public_id := "clip";
              up_duration := Some 12.5%Q |}
           {| up_url := "http://cdn/cover.png"; up_public_id := "cover";
              up_duration := None |} 12.5%Q bob demo_world); reflexivity.
Defined.

(** A request that passes the blank-field test but brings no files at all
    is refused with status 400 before anything is written.  A request that
    brings a video file but no thumbnail field does not reach the 400 written
    for a missing thumbnail: the read of the first thumbnail file throws, and
    nothing is written either. *)
Theorem publishAVideo_missing_files upload title' description'
    (user : option ObjectId) w :
  existsb blank [title'; description'] = false →
  publishAVideo upload title' description' None user w
    = (w, Throw (ApiError 400 "videoFileLocalPath is required"))
  ∧ ∀ pv rest,
      publishAVideo upload title' description'
        (Some {| f_videoFile := Some (pv :: rest); f_thumbnail := None |}) user w
      = (w, Throw TypeError).
Proof.
  intros Hb. split; [| intros pv rest];
    unfold publishAVideo, first_path; run_handler; by rewrite Hb.
Qed.

Lemma publishAVideo_missing_files_witness :
  publishAVideo demo_upload (Some "T") (Some "D") None (Some alice) demo_world
    = (demo_world, Throw (ApiError 400 "videoFileLocalPath is required"))
  ∧ ∀ pv rest,
      publishAVideo demo_upload (Some "T") (Some "D")
        (Some {| f_videoFile := Some (pv :: rest); f_thumbnail := None |})
        (Some alice) demo_world
      = (demo_world, Throw TypeError).
Proof.
  apply (publishAVideo_missing_files demo_upload (Some "T") (Some "D")
           (Some alice) demo_world). reflexivity.
Defined.

(** Both uploads are made before either result is looked at.  When one of
    them fails the request is refused with status 400 and no record is
    created, but the upload that succeeded is not taken back: its asset
    stays in the asset store. *)
Theorem publishAVideo_failed_upload_leaves_asset upload title' description' fs
    pv rest_v pt rest_t (user : option ObjectId) w :
  existsb blank [title'; description'] = false →
  f_videoFile fs = Some (pv :: rest_v) →
  f_thumbnail fs = Some (pt :: rest_t) →
  truthy (Some pv) = true →
  truthy (Some pt) = true →
  upload pv = None ∨ upload pt = None →
  ∃ w',
    publishAVideo upload title' description' (Some fs) user w
      = (w', Throw (ApiError 400 (match upload pv with
                                  | Some _ => "Thumbnail not found"
                                  | None => "Video file not found"
                                  end)))
    ∧ videos w' = videos w
    ∧ log w' = log w ++ [EvUpload pv; EvUpload pt]
    ∧ assets w ⊆ assets w'
    ∧ ∀ r, upload pv = Some r ∨ upload pt = Some r → up_public_id r ∈ assets w'.
Proof.
  intros Hb Hfv Hft Hpv Hpt Hfail.
  exists (record (EvUpload pt)
            (match upload pt with
             | Some r => with_assets (λ a, {[up_public_id r]} ∪ a)
             | None => id
             end
               (record (EvUpload pv)
                  (match upload pv with
                   | Some r => with_assets (λ a, {[up_public_id r]} ∪ a)
                   | None => id
                   end w)))).
  split.
  - unfold publishAVideo, first_path. run_handler.
    rewrite Hb, Hfv, Hft. settle. rewrite Hpv, Hpt. settle.
    cbn -[union]. destruct (upload pv) as [rv |], (upload pt) as [rt |];
      first [reflexivity | by destruct Hfail].
  - destruct (upload pv) as [rv |], (upload pt) as [rt |]; cbn -[union];
      (split; [done |]); (split; [by rewrite <- app_assoc |]);
      (split; [set_solver |]); intros r [Hr | Hr]; simplify_eq; set_solver.
Qed.

Lemma publishAVideo_failed_upload_leaves_asset_witness :
  ∃ w',
    publishAVideo demo_upload (Some "T") (Some "D")
      (Some {| f_videoFile := Some ["/tmp/clip.mp4"];
               f_thumbnail := Some ["/tmp/broken.png"] |}) (Some alice) demo_world
      = (w', Throw (ApiError 400 "Thumbnail not found"))
    ∧ videos w' = videos demo_world
    ∧ log w' = log demo_world ++ [EvUpload "/tmp/clip.mp4"; EvUpload "/tmp/broken.png"]
    ∧ assets demo_world ⊆ assets w'
    ∧ ∀ r, demo_upload "/tmp/clip.mp4" = Some r ∨ demo_upload "/tmp/broken.png" = Some r →
           up_public_id r ∈ assets w'.
Proof.
  apply (publishAVideo_failed_upload_leaves_asset demo_upload (Some "T") (Some "D")
           {| f_videoFile := Some ["/tmp/clip.mp4"];
              f_thumbnail := Some ["/tmp/broken.png"] |}
           "/tmp/clip.mp4" [] "/tmp/broken.png" [] (Some alice) demo_world);
    [reflexivity | reflexivity | reflexivity | reflexivity | reflexivity
    | right; reflexivity].
Defined.

(** ** What the handlers never do *)

Section Keeps.
Context (R : relation World) `{!Reflexive R, !Transitive R}.

Lemma keeps_ret {A} (a : A) : keeps R (ret a).
Proof. intros w. reflexivity. Qed.

Lemma keeps_throw {A} (e : Exception) : keeps R (@throw A e).
Proof. intros w. reflexivity. Qed.

Lemma keeps_gets {A} (f : World → A) : keeps R (gets f).
Proof. intros w. reflexivity. Qed.

Lemma keeps_throw_if (b : bool) (e : Exception) : keeps R (throw_if b e).
Proof. destruct b; [apply keeps_throw | apply keeps_ret]. Qed.

Lemma keeps_modify (f : World → World) : (∀ w, R w (f w)) → keeps R (modify f).
Proof. intros Hf w. apply Hf. Qed.

Lemma keeps_bind {A B} (m : Handler A) (k : A → Handler B) :
  keeps R m → (∀ a, keeps R (k a)) → keeps R (bind m k).
Proof.
  intros Hm Hk w. unfold bind. specialize (Hm w).
  destruct (m w) as [w1 [a | e]]; cbn in *; [| done].
  by etransitivity; [| apply Hk].
Qed.

Lemma keeps_with_id {A} (id : string) (k : ObjectId → Handler A) :
  (∀ o, keeps R (k o)) → keeps R (with_id id k).
Proof.
  intros Hk. unfold with_id. destruct (castObjectId id); [apply Hk | apply keeps_throw].
Qed.
End Keeps.

(** Walks a handler down to its writes; [tac] settles each write. *)
Ltac keeps_walk tac :=
  repeat first
    [ apply keeps_ret; apply _
    | apply keeps_throw; apply _
    | apply keeps_gets; apply _
    | apply keeps_throw_if; apply _
    | apply keeps_with_id; [apply _ | intros ?]
    | apply keeps_modify; intros ?; tac
    | apply keeps_bind; [apply _ | | intros ?]
    | match goal with
      | |- keeps _ (match ?x with _ => _ end) => destruct x
      end ].

#[local] Instance untouched_refl {A} (part : World → A) : Reflexive (untouched part).
Proof. by intros w. Qed.

#[local] Instance untouched_trans {A} (part : World → A) : Transitive (untouched part).
Proof. unfold untouched. intros w1 w2 w3 H1 H2. congruence. Qed.

#[local] Instance videos_kept_refl : Reflexive videos_kept.
Proof. intros w i v Hv. exists v. repeat split; [done | lia]. Qed.

#[local] Instance videos_kept_trans : Transitive videos_kept.
Proof.
  intros w1 w2 w3 H12 H23 i v Hv.
  destruct (H12 i v Hv) as (v2 & Hv2 & Ho & Hf & Hd & Hc & Hn).
  destruct (H23 i v2 Hv2) as (v3 & Hv3 & Ho' & Hf' & Hd' & Hc' & Hn').
  exists v3. repeat split; [done | congruence .. | lia].
Qed.

Ltac unfold_store :=
  unfold Video_findById, Video_findByIdAndUpdate, Video_findByIdAndDelete,
    Video_create, User_findById, User_save, User_updateMany_pull,
    deleteFromCloudinary, uploadOnCloudinary, first_path.

Ltac frame_write := unfold untouched; repeat case_match; reflexivity.

(** The writes of the controller are confined.  No handler writes likes or
    subscriptions (the likes of a deleted video stay behind).  Watch-histories
    are written by [getVideoById] and [deleteVideo] only, and the asset store
    by [publishAVideo], [updateVideo] and [deleteVideo] only.  This holds for
    every request, accepted or refused. *)
Theorem writes_are_confined upload search w :
  (∀ q,
     (likes (getAllVideos search q w).1, subscriptions (getAllVideos search q w).1,
      users (getAllVideos search q w).1, assets (getAllVideos search q w).1)
     = (likes w, subscriptions w, users w, assets w))
  ∧ (∀ videoId user,
       (likes (togglePublishStatus videoId user w).1,
        subscriptions (togglePublishStatus videoId user w).1,
        users (togglePublishStatus videoId user w).1,
        assets (togglePublishStatus videoId user w).1)
       = (likes w, subscriptions w, users w, assets w))
  ∧ (∀ videoId user,
       (likes (getVideoById videoId user w).1,
        subscriptions (getVideoById videoId user w).1,
        assets (getVideoById videoId user w).1)
       = (likes w, subscriptions w, assets w))
  ∧ (∀ videoId t d path user,
       (likes (updateVideo upload videoId t d path user w).1,
        subscriptions (updateVideo upload videoId t d path user w).1,
        users (updateVideo upload videoId t d path user w).1)
       = (likes w, subscriptions w, users w))
  ∧ (∀ t d files user,
       (likes (publishAVideo upload t d files user w).1,
        subscriptions (publishAVideo upload t d files user w).1,
        users (publishAVideo upload t d files user w).1)
       = (likes w, subscriptions w, users w))
  ∧ (∀ videoId user,
       (likes (deleteVideo videoId user w).1,
        subscriptions (deleteVideo videoId user w).1)
       = (likes w, subscriptions w)).
Proof.
  repeat split.
  - intros q. revert w.
    change (keeps (untouched (λ w, (likes w, subscriptions w, users w, assets w)))
              (getAllVideos search q)).
    unfold getAllVideos. unfold_store. keeps_walk frame_write.
  - intros videoId user. revert w.
    change (keeps (untouched (λ w, (likes w, subscriptions w, users w, assets w)))
              (togglePublishStatus videoId user)).
    unfold togglePublishStatus. unfold_store. keeps_walk frame_write.
  - intros videoId user. revert w.
    change (keeps (untouched (λ w, (likes w, subscriptions w, assets w)))
              (getVideoById videoId user)).
    unfold getVideoById. unfold_store. keeps_walk frame_write.
  - intros videoId t d path user. revert w.
    change (keeps (untouched (λ w, (likes w, subscriptions w, users w)))
              (updateVideo upload videoId t d path user)).
    unfold updateVideo. unfold_store. keeps_walk frame_write.
  - intros t d files user. revert w.
    change (keeps (untouched (λ w, (likes w, subscriptions w, users w)))
              (publishAVideo upload t d files user)).
    unfold publishAVideo. unfold_store. keeps_walk frame_write.
  - intros videoId user. revert w.
    change (keeps (untouched (λ w, (likes w, subscriptions w)))
              (deleteVideo videoId user)).
    unfold deleteVideo. unfold_store. keeps_walk frame_write.
Qed.

Lemma videos_kept_same w w' : videos w' = videos w → videos_kept w w'.
Proof. intros Heq i v Hv. exists v. rewrite Heq. repeat split; [done | lia]. Qed.

Lemma videos_kept_alter (f : Video → Video) o e w :
  (∀ v, owner (f v) = owner v ∧ videoFile (f v) = videoFile v
        ∧ duration (f v) = duration v ∧ createdAt (f v) = createdAt v
        ∧ views v ≤ views (f v)) →
  videos_kept w (record e (with_videos (alter f o) w)).
Proof.
  intros Hf i v Hv. cbn -[alter lookup].
  destruct (decide (i = o)) as [-> | Hne].
  - exists (f v). split; [by apply lookup_alter_stored | apply Hf].
  - exists v. rewrite lookup_alter_ne by done. repeat split; [done | lia].
Qed.

Lemma keeps_Video_create t d dur vf th o p :
  keeps videos_kept (Video_create t d dur vf th o p).
Proof.
  intros w. unfold Video_create.
  destruct t as [t |], d as [d |], dur as [dur |], o as [o |]; try reflexivity.
  intros i v Hv. exists v. cbn -[insert lookup fresh dom].
  rewrite lookup_insert_ne.
  - repeat split; [done | lia].
  - intros <-. pose proof (is_fresh (dom (videos w))) as Hfresh.
    apply not_elem_of_dom in Hfresh. congruence.
Qed.

Ltac kept_write :=
  first
    [ apply videos_kept_same; repeat case_match; reflexivity
    | apply videos_kept_alter; intros ?; cbn; repeat split; lia ].

(** [deleteVideo] is the only handler that removes a video.  Every other
    request, accepted or refused, leaves each stored video stored, with the
    owner, the video file, the duration and the creation time it had, and
    with a view count that is not lower.  [deleteVideo] itself changes no
    video that it leaves in the store. *)
Theorem stored_videos_are_kept upload w :
  (∀ videoId user, videos_kept w (getVideoById videoId user w).1)
  ∧ (∀ videoId user, videos_kept w (togglePublishStatus videoId user w).1)
  ∧ (∀ videoId t d path user,
       videos_kept w (updateVideo upload videoId t d path user w).1)
  ∧ (∀ t d files user, videos_kept w (publishAVideo upload t d files user w).1)
  ∧ (∀ videoId user, videos (deleteVideo videoId user w).1 ⊆ videos w).
Proof.
  repeat split.
  - intros videoId user. revert w.
    change (keeps videos_kept (getVideoById videoId user)).
    unfold getVideoById. unfold_store. keeps_walk kept_write.
  - intros videoId user. revert w.
    change (keeps videos_kept (togglePublishStatus videoId user)).
    unfold togglePublishStatus. unfold_store. keeps_walk kept_write.
  - intros videoId t d path user. revert w.
    change (keeps videos_kept (updateVideo upload videoId t d path user)).
    unfold updateVideo. unfold_store. keeps_walk kept_write.
  - intros t d files user. revert w.
    change (keeps videos_kept (publishAVideo upload t d files user)).
    unfold publishAVideo.
    unfold Video_findById, uploadOnCloudinary, first_path.
    keeps_walk kept_write. apply keeps_Video_create.
  - intros videoId user. revert w.
    change (keeps (λ w w', videos w' ⊆ videos w) (deleteVideo videoId user)).
    assert (Reflexive (λ w w' : World, videos w' ⊆ videos w)) by (by intros ?).
    assert (Transitive (λ w w' : World, videos w' ⊆ videos w))
      by (intros w1 w2 w3 H12 H23; by etransitivity).
    unfold deleteVideo. unfold_store.
    keeps_walk ltac:(cbn -[delete]; first [done | apply delete_subseteq]).
Qed.

(** ** References to the asset store *)

Section AssetSets.
Context (A : gset string) (a b c : string).

Lemma in_ne_notin : b ∈ A → a ∉ A → b ≠ a.
Proof. intros Hin Hnot ->. done. Qed.

Lemma swap_keeps : c ∈ A → c ≠ b → c ∈ ({[a]} ∪ A) ∖ {[b]}.
Proof. set_solver. Qed.

Lemma swap_brings : b ∈ A → a ∉ A → a ∈ ({[a]} ∪ A) ∖ {[b]}.
Proof. set_solver. Qed.

Lemma drop_keeps : c ∈ A → c ≠ a → c ≠ b → c ∈ A ∖ {[a]} ∖ {[b]}.
Proof. set_solver. Qed.

Lemma add_keeps : c ∈ A → c ∈ {[a]} ∪ ({[b]} ∪ A).
Proof. set_solver. Qed.

Lemma add_brings : a ∈ {[a]} ∪ ({[b]} ∪ A) ∧ b ∈ {[a]} ∪ ({[b]} ∪ A).
Proof. set_solver. Qed.
End AssetSets.

Lemma assets_consistent_grow w w' :
  videos w' = videos w →
  assets w ⊆ assets w' →
  assets_consistent w → assets_consistent w'.
Proof.
  intros Hvid Hsub [Hlive Hapart]. split.
  - intros i v Hv. rewrite Hvid in Hv.
    destruct (Hlive i v Hv) as (Hf & Ht & Hne). auto.
  - intros i j v v' Hij Hv Hv'. rewrite Hvid in Hv, Hv'. by eapply Hapart.
Qed.

Lemma assets_consistent_keep_ids w w' o f :
  (∀ v, videos w !! o = Some v →
        videoFile (f v) = videoFile v
        ∧ public_id (thumbnail (f v)) = public_id (thumbnail v)) →
  videos w' = alter f o (videos w) →
  assets w ⊆ assets w' →
  assets_consistent w → assets_consistent w'.
Proof.
  intros Hf Hvid Hsub [Hlive Hapart].
  assert (Hback : ∀ i v', videos w' !! i = Some v' →
            ∃ v, videos w !! i = Some v ∧ videoFile v' = videoFile v
                 ∧ public_id (thumbnail v') = public_id (thumbnail v)).
  { intros i v'. rewrite Hvid. destruct (decide (i = o)) as [-> | Hne].
    - rewrite lookup_alter_eq. destruct (videos w !! o) as [v |]; [| done].
      cbn. intros [= <-]. exists v. split; [done | by apply Hf].
    - rewrite lookup_alter_ne by done. intros Hv. by exists v'. }
  split.
  - intros i v' Hv'. destruct (Hback i v' Hv') as (v & Hv & -> & ->).
    destruct (Hlive i v Hv) as (Hfile & Hthumb & Hne). auto.
  - intros i j v1 v2 Hij H1 H2.
    destruct (Hback i v1 H1) as (u1 & Hu1 & -> & ->).
    destruct (Hback j v2 H2) as (u2 & Hu2 & -> & ->).
    by eapply Hapart.
Qed.

Lemma assets_consistent_replace w w' o v v' :
  assets_consistent w →
  videos w !! o = Some v →
  videos w' !! o = Some v' →
  (∀ i, i ≠ o → videos w' !! i = videos w !! i) →
  videoFile v' = videoFile v →
  public_id (thumbnail v') ∉ assets w →
  assets w' = ({[public_id (thumbnail v')]} ∪ assets w) ∖ {[public_id (thumbnail v)]} →
  assets_consistent w'.
Proof.
  intros [Hlive Hapart] Hv Hv' Hother Hfile Hfresh Hassets.
  destruct (Hlive o v Hv) as (Hvf & Hvt & Hvne).
  split.
  - intros i u Hu. destruct (decide (i = o)) as [-> | Hne].
    + rewrite Hv' in Hu. injection Hu as <-. rewrite Hassets, Hfile.
      split; [by apply swap_keeps |]. split; [by apply swap_brings |].
      by eapply in_ne_notin.
    + rewrite (Hother i Hne) in Hu.
      destruct (Hlive i u Hu) as (Huf & Hut & Hune).
      destruct (Hapart i o u v Hne Hu Hv) as (_ & H2 & H3).
      rewrite Hassets.
      split; [by apply swap_keeps |]. split; [by apply swap_keeps | done].
  - intros i j u1 u2 Hij Hu1 Hu2.
    destruct (decide (i = o)) as [-> | Hio]; destruct (decide (j = o)) as [-> | Hjo];
      [done | | |].
    + rewrite Hv' in Hu1. injection Hu1 as <-. rewrite (Hother j Hjo) in Hu2.
      destruct (Hlive j u2 Hu2) as (Huf & Hut & _).
      destruct (Hapart o j v u2 Hij Hv Hu2) as (H1 & H2 & _).
      rewrite Hfile. split; [done |]. split; [done |].
      apply not_eq_sym. by eapply in_ne_notin.
    + rewrite Hv' in Hu2. injection Hu2 as <-. rewrite (Hother i Hio) in Hu1.
      destruct (Hlive i u1 Hu1) as (Huf & Hut & _).
      destruct (Hapart i o u1 v Hij Hu1 Hv) as (H1 & _ & _).
      rewrite Hfile. split; [done |]. split; by eapply in_ne_notin.
    + rewrite (Hother i Hio) in Hu1. rewrite (Hother j Hjo) in Hu2.
      exact (Hapart i j u1 u2 Hij Hu1 Hu2).
Qed.

Lemma assets_consistent_remove w w' o v :
  assets_consistent w →
  videos w !! o = Some v →
  videos w' = delete o (videos w) →
  assets w' = assets w ∖ {[public_id (videoFile v)]} ∖ {[public_id (thumbnail v)]} →
  assets_consistent w'.
Proof.
  intros [Hlive Hapart] Hv Hvid Hassets. split.
  - intros i u. rewrite Hvid. intros Hu.
    apply lookup_delete_Some in Hu as [Hne Hu].
    destruct (Hlive i u Hu) as (Huf & Hut & Hune).
    destruct (Hapart i o u v (not_eq_sym Hne) Hu Hv) as (H1 & H2 & H3).
    destruct (Hapart o i v u Hne Hv Hu) as (_ & H2' & _).
    rewrite Hassets.
    split; [by apply drop_keeps |]. split; [| done].
    apply drop_keeps; [done | by apply not_eq_sym | done].
  - intros i j u1 u2 Hij. rewrite Hvid. intros Hu1 Hu2.
    apply lookup_delete_Some in Hu1 as [_ Hu1].
    apply lookup_delete_Some in Hu2 as [_ Hu2].
    exact (Hapart i j u1 u2 Hij Hu1 Hu2).
Qed.

Lemma assets_consistent_add w w' id v :
  assets_consistent w →
  videos w !! id = None →
  videos w' = <[id := v]> (videos w) →
  public_id (videoFile v) ∉ assets w →
  public_id (thumbnail v) ∉ assets w →
  public_id (videoFile v) ≠ public_id (thumbnail v) →
  assets w' = {[public_id (thumbnail v)]} ∪ ({[public_id (videoFile v)]} ∪ assets w) →
  assets_consistent w'.
Proof.
  intros [Hlive Hapart] Hnone Hvid Hf Ht Hne Hassets. split.
  - intros i u. rewrite Hvid. intros Hu.
    apply lookup_insert_Some in Hu as [[<- <-] | [Hi Hu]].
    + rewrite Hassets.
      destruct (add_brings (assets w) (public_id (thumbnail v))
                  (public_id (videoFile v))) as [Hb1 Hb2]. done.
    + destruct (Hlive i u Hu) as (Huf & Hut & Hune). rewrite Hassets.
      split; [by apply add_keeps |]. split; [by apply add_keeps | done].
  - intros i j u1 u2 Hij. rewrite Hvid. intros Hu1 Hu2.
    apply lookup_insert_Some in Hu1 as [[<- <-] | [Hi Hu1]];
      apply lookup_insert_Some in Hu2 as [[<- <-] | [Hj Hu2]].
    + done.
    + destruct (Hlive j u2 Hu2) as (Huf & Hut & _).
      split; [| split]; apply not_eq_sym; by eapply in_ne_notin.
    + destruct (Hlive i u1 Hu1) as (Huf & Hut & _).
      split; [| split]; by eapply in_ne_notin.
    + exact (Hapart i j u1 u2 Hij Hu1 Hu2).
Qed.

Lemma updateVideo_keeps_references upload videoId t d path user w :
  assets_consistent w →
  (∀ p r, upload p = Some r → up_public_id r ∉ assets w) →
  assets_consistent (updateVideo upload videoId t d path user w).1.
Proof.
  intros Hc Hfresh. unfold updateVideo. run_handler.
  destruct (castObjectId videoId) as [o |] eqn:Hid; settle; [| exact Hc].
  destruct (videos w !! o) as [v |] eqn:Hv.
  2: { destruct (not_owner None user); settle; [exact Hc |].
       destruct (negb (truthy t) && negb (truthy d) && negb (truthy path));
         settle; [exact Hc |].
       destruct (truthy path); cbn -[alter lookup]; rewrite ?Hv; exact Hc. }
  destruct (not_owner (Some v) user); settle; [exact Hc |].
  destruct (negb (truthy t) && negb (truthy d) && negb (truthy path));
    settle; [exact Hc |].
  destruct (truthy path).
  - cbn -[alter lookup]. rewrite Hv.
    destruct (upload (default "" path)) as [r |] eqn:Hup; cbn -[alter lookup].
    + rewrite lookup_alter_eq. cbn -[alter lookup]. rewrite Hv. cbn -[alter lookup].
      eapply (assets_consistent_replace w _ o v); [done | done | | | | |].
      * cbn -[alter lookup]. by apply lookup_alter_stored.
      * intros i Hi. cbn -[alter lookup]. by rewrite lookup_alter_ne.
      * done.
      * cbn. by eapply Hfresh.
      * reflexivity.
    + apply (assets_consistent_grow w); [done | done | exact Hc].
  - cbn -[alter lookup]. rewrite lookup_alter_eq, Hv. cbn -[alter lookup].
    eapply (assets_consistent_keep_ids w _ o); [| reflexivity | done | exact Hc].
    intros u Hu. rewrite Hv in Hu. by injection Hu as <-.
Qed.

Lemma deleteVideo_keeps_references videoId user w :
  assets_consistent w →
  assets_consistent (deleteVideo videoId user w).1.
Proof.
  intros Hc. unfold deleteVideo. run_handler.
  destruct (castObjectId videoId) as [o |] eqn:Hid; settle; [| exact Hc].
  destruct (videos w !! o) as [v |] eqn:Hv.
  - destruct (not_owner (Some v) user); settle; [exact Hc |].
    cbn -[delete lookup fmap]. rewrite Hv. cbn -[delete lookup fmap].
    by eapply (assets_consistent_remove w _ o v).
  - destruct (not_owner None user); settle; [exact Hc |].
    cbn -[delete lookup fmap]. rewrite Hv. cbn -[delete lookup fmap].
    apply (assets_consistent_grow w); [| done | exact Hc].
    cbn -[delete lookup fmap]. by apply delete_id.
Qed.

Lemma togglePublishStatus_keeps_references videoId user w :
  assets_consistent w →
  assets_consistent (togglePublishStatus videoId user w).1.
Proof.
  intros Hc. unfold togglePublishStatus. run_handler.
  destruct (castObjectId videoId) as [o |] eqn:Hid; settle; [| exact Hc].
  destruct (videos w !! o) as [v |] eqn:Hv; [| exact Hc].
  destruct (not_owner (Some v) user); settle; [exact Hc |].
  cbn -[alter lookup]. rewrite lookup_alter_eq, Hv. cbn -[alter lookup].
  eapply (assets_consistent_keep_ids w _ o (set_isPublished (negb (isPublished v))));
    [intros u _; split; reflexivity | reflexivity | done | exact Hc].
Qed.

Lemma getVideoById_keeps_references videoId user w :
  assets_consistent w →
  assets_consistent (getVideoById videoId user w).1.
Proof.
  intros Hc. unfold getVideoById. run_handler.
  destruct (castObjectId videoId) as [o |] eqn:Hid; settle; [| exact Hc].
  cbn -[alter lookup].
  assert (Hviews : assets_consistent
            (record (EvVideoUpdate o) (with_videos (alter inc_views o) w))).
  { eapply (assets_consistent_keep_ids w _ o inc_views);
      [intros u _; split; reflexivity | reflexivity | done | exact Hc]. }
  destruct user as [uid |]; cbn -[alter lookup]; [| exact Hviews].
  destruct (users w !! uid) as [u |]; cbn -[alter lookup]; [| exact Hviews].
  by apply (assets_consistent_grow
              (record (EvVideoUpdate o) (with_videos (alter inc_views o) w))).
Qed.

Lemma publishAVideo_keeps_references upload t d files user w :
  assets_consistent w →
  (∀ p r, upload p = Some r → up_public_id r ∉ assets w) →
  (∀ p p' r r', p ≠ p' → upload p = Some r → upload p' = Some r' →
                up_public_id r ≠ up_public_id r') →
  (∀ fs pv pt rest rest', files = Some fs →
     f_videoFile fs = Some (pv :: rest) → f_thumbnail fs = Some (pt :: rest') →
     pv ≠ pt) →
  assets_consistent (publishAVideo upload t d files user w).1.
Proof.
  intros Hc Hfresh Hdistinct Hpaths. unfold publishAVideo, first_path. run_handler.
  destruct (existsb blank [t; d]); settle; [exact Hc |].
  destruct files as [fs |]; settle; [| exact Hc].
  destruct (f_videoFile fs) as [[| pv rest] |] eqn:Hfv; settle; try exact Hc.
  destruct (f_thumbnail fs) as [[| pt rest'] |] eqn:Hft; settle; try exact Hc.
  pose proof (Hpaths fs pv pt rest rest' eq_refl Hfv Hft) as Hne.
  destruct (truthy (Some pv)); settle; [| exact Hc].
  destruct (truthy (Some pt)); settle; [| exact Hc].
  cbn -[insert lookup fresh dom union].
  destruct (upload pv) as [rv |] eqn:Huv; destruct (upload pt) as [rt |] eqn:Hut;
    cbn -[insert lookup fresh dom union].
  2-4: apply (assets_consistent_grow w); [done | cbn; set_solver + | exact Hc].
  unfold Video_create.
  destruct t as [t |], d as [d |], (up_duration rv) as [seconds |],
    user as [uid |];
    cbn -[insert lookup fresh dom union].
  2-16: apply (assets_consistent_grow w); [done | cbn; set_solver + | exact Hc].
  rewrite lookup_insert_eq. cbn -[insert lookup fresh dom union].
  eapply (assets_consistent_add w _ (fresh (dom (videos w)))).
  - exact Hc.
  - apply not_elem_of_dom, is_fresh.
  - reflexivity.
  - cbn. by eapply Hfresh.
  - cbn. by eapply Hfresh.
  - cbn. by eapply (Hdistinct pv pt).
  - reflexivity.
Qed.

(** In a run without store failures the references to the asset store stay
    sound.  If both assets of every stored video are in the asset store and
    no asset is referenced twice, and the asset store hands out identifiers
    it does not hold yet, different ones for different files, then the same
    is true after any request to [getVideoById], [togglePublishStatus],
    [updateVideo], [deleteVideo] or [publishAVideo], accepted or refused. *)
Theorem asset_references_stay_sound upload w :
  assets_consistent w →
  (∀ p r, upload p = Some r → up_public_id r ∉ assets w) →
  (∀ p p' r r', p ≠ p' → upload p = Some r → upload p' = Some r' →
                up_public_id r ≠ up_public_id r') →
  (∀ videoId user, assets_consistent (getVideoById videoId user w).1)
  ∧ (∀ videoId user, assets_consistent (togglePublishStatus videoId user w).1)
  ∧ (∀ videoId t d path user,
       assets_consistent (updateVideo upload videoId t d path user w).1)
  ∧ (∀ videoId user, assets_consistent (deleteVideo videoId user w).1)
  ∧ (∀ t d files user,
       (∀ fs pv pt rest rest', files = Some fs →
          f_videoFile fs = Some (pv :: rest) →
          f_thumbnail fs = Some (pt :: rest') → pv ≠ pt) →
       assets_consistent (publishAVideo upload t d files user w).1).
Proof.
  intros Hc Hfresh Hdistinct. split; [| split; [| split; [| split]]].
  - intros. by apply getVideoById_keeps_references.
  - intros. by apply togglePublishStatus_keeps_references.
  - intros. by apply updateVideo_keeps_references.
  - intros. by apply deleteVideo_keeps_references.
  - intros. by apply publishAVideo_keeps_references.
Qed.

Lemma demo_world_consistent : assets_consistent demo_world.
Proof.
  assert (Hstored : ∀ i v, videos demo_world !! i = Some v →
            (i = 1%N ∧ v = video1) ∨ (i = 2%N ∧ v = video2)).
  { intros i v Hv. unfold demo_world in Hv. cbn -[lookup insert] in Hv.
    apply lookup_insert_Some in Hv as [[<- <-] | [_ Hv]]; [by left |].
    apply lookup_insert_Some in Hv as [[<- <-] | [_ Hv]]; [by right |].
    by rewrite lookup_empty in Hv. }
  split.
  - intros i v Hv.
    destruct (Hstored i v Hv) as [[-> ->] | [-> ->]];
      (split; [by vm_compute | split; [by vm_compute | discriminate]]).
  - intros i j v v' Hij Hv Hv'.
    destruct (Hstored i v Hv) as [[-> ->] | [-> ->]];
      destruct (Hstored j v' Hv') as [[-> ->] | [-> ->]];
      first [done | repeat split; discriminate].
Qed.

Lemma demo_upload_fresh p r :
  demo_upload p = Some r → up_public_id r ∉ assets demo_world.
Proof.
  unfold demo_upload. repeat case_match; intros [= <-]; by vm_compute.
Qed.

Lemma demo_upload_distinct p p' r r' :
  p ≠ p' → demo_upload p = Some r → demo_upload p' = Some r' →
  up_public_id r ≠ up_public_id r'.
Proof.
  unfold demo_upload. intros Hne.
  destruct (String.eqb p "/tmp/clip.mp4") eqn:H1;
    destruct (String.eqb p' "/tmp/clip.mp4") eqn:H2;
    destruct (String.eqb p "/tmp/cover.png") eqn:H3;
    destruct (String.eqb p' "/tmp/cover.png") eqn:H4;
    intros [= <-] [= <-]; try discriminate;
    rewrite ?String.eqb_eq in *; congruence.
Qed.

Lemma asset_references_stay_sound_witness :
  (∀ videoId user, assets_consistent (getVideoById videoId user demo_world).1)
  ∧ (∀ videoId user,
       assets_consistent (togglePublishStatus videoId user demo_world).1)
  ∧ (∀ videoId t d path user,
       assets_consistent (updateVideo demo_upload videoId t d path user demo_world).1)
  ∧ (∀ videoId user, assets_consistent (deleteVideo videoId user demo_world).1)
  ∧ (∀ t d files user,
       (∀ fs pv pt rest rest', files = Some fs →
          f_videoFile fs = Some (pv :: rest) →
          f_thumbnail fs = Some (pt :: rest') → pv ≠ pt) →
       assets_consistent (publishAVideo demo_upload t d files user demo_world).1).
Proof.
  apply (asset_references_stay_sound demo_upload demo_world).
  - exact demo_world_consistent.
  - exact demo_upload_fresh.
  - exact demo_upload_distinct.
Defined.

(** ** The handlers together *)

(** Without search text, the documents of a page are stored videos, as they
    are stored now, and they are published. *)
Lemma getAllVideos_docs_stored search q w w' p :
  truthy (query q) = false →
  getAllVideos search q w = (w', Return p) →
  Forall (λ d, videos w !! fd_id d = Some (fd_video d)
               ∧ isPublished (fd_video d) = true) (docs p).
Proof.
  intros Hq Hrun.
  destruct (getAllVideos_run search q w) as (stage & Hrun' & Hstage).
  { intros Hu. destruct (castObjectId (default "" (userId q))) eqn:Hid; [done |].
    rewrite (getAllVideos_bad_owner search q w Hu Hid) in Hrun. discriminate. }
  rewrite Hrun' in Hrun. injection Hrun as _ <-.
  unfold aggregatePaginate; cbn [docs].
  apply Forall_take, Forall_drop, Forall_forall; intros d Hd.
  apply list_elem_of_omap in Hd as ([i v] & Hx & Hjoin).
  apply join_owner_Some in Hjoin as (-> & -> & _). cbn [fst snd].
  rewrite Hstage, Hq in Hx; cbn zeta in Hx.
  assert (Hin : (i, v) ∈ filter (λ d : N * Video, isPublished d.2 = true)
                  (if truthy (userId q)
                   then filter (λ d : N * Video,
                                  Some (owner d.2)
                                  = castObjectId (default "" (userId q)))
                          (map_to_list (videos w))
                   else map_to_list (videos w))).
  { destruct (truthy (sortBy q) && truthy (sortType q));
      by apply sort_stage_elem in Hx. }
  apply list_elem_of_filter in Hin as [Hpub Hin]. split; [| done].
  destruct (truthy (userId q));
    [apply list_elem_of_filter in Hin as [_ Hin] |];
    by apply elem_of_map_to_list in Hin.
Qed.

(** Once the owner has switched a published video off with
    [togglePublishStatus], or has deleted it, no listing without search text
    shows it, whatever the owner filter, the sort and the page asked for. *)
Theorem video_leaves_listing search videoId o v q w :
  castObjectId videoId = Some o →
  videos w !! o = Some v →
  isPublished v = true →
  truthy (query q) = false →
  (∃ w1,
      togglePublishStatus videoId (Some (owner v)) w = (w1, Return false)
      ∧ ∀ w2 p, getAllVideos search q w1 = (w2, Return p) →
                ∀ d, d ∈ docs p → fd_id d ≠ o)
  ∧ (∃ w1,
      deleteVideo videoId (Some (owner v)) w = (w1, Return v)
      ∧ ∀ w2 p, getAllVideos search q w1 = (w2, Return p) →
                ∀ d, d ∈ docs p → fd_id d ≠ o).
Proof.
  intros Hid Hv Hpub Hq. split.
  - eexists. split.
    { rewrite (togglePublishStatus_owner videoId o v w Hid Hv). by rewrite Hpub. }
    intros w2 p Hrun d Hd Heq.
    pose proof (getAllVideos_docs_stored search q _ w2 p Hq Hrun) as Hall.
    rewrite Forall_forall in Hall. destruct (Hall d Hd) as [Hstored Hshown].
    rewrite Heq in Hstored. cbn -[alter lookup] in Hstored.
    rewrite (lookup_alter_stored _ _ _ v Hv) in Hstored.
    injection Hstored as Hstored. rewrite <- Hstored in Hshown. cbn in Hshown.
    destruct (isPublished v); discriminate.
  - eexists. split; [by apply deleteVideo_owner |].
    intros w2 p Hrun d Hd Heq.
    pose proof (getAllVideos_docs_stored search q _ w2 p Hq Hrun) as Hall.
    rewrite Forall_forall in Hall. destruct (Hall d Hd) as [Hstored _].
    rewrite Heq in Hstored. cbn -[delete lookup fmap] in Hstored.
    by rewrite lookup_delete_eq in Hstored.
Qed.

Lemma video_leaves_listing_witness :
  (∃ w1,
      togglePublishStatus id1 (Some alice) demo_world = (w1, Return false)
      ∧ ∀ w2 p,
          getAllVideos demo_search
            {| page := None; limit := None; query := None; sortBy := None;
               sortType := None; userId := None |} w1 = (w2, Return p) →
          ∀ d, d ∈ docs p → fd_id d ≠ 1%N)
  ∧ (∃ w1,
      deleteVideo id1 (Some alice) demo_world = (w1, Return video1)
      ∧ ∀ w2 p,
          getAllVideos demo_search
            {| page := None; limit := None; query := None; sortBy := None;
               sortType := None; userId := None |} w1 = (w2, Return p) →
          ∀ d, d ∈ docs p → fd_id d ≠ 1%N).
Proof.
  apply (video_leaves_listing demo_search id1 1%N video1
           {| page := None; limit := None; query := None; sortBy := None;
              sortType := None; userId := None |} demo_world); reflexivity.
Defined.

(** ** Watch-histories and the videos they name *)

#[local] Instance users_same_videos_stay_refl : Reflexive users_same_videos_stay.
Proof. by intros w. Qed.

#[local] Instance users_same_videos_stay_trans : Transitive users_same_videos_stay.
Proof.
  intros w1 w2 w3 [Hu12 Hv12] [Hu23 Hv23]. split; [congruence | auto].
Qed.

Ltac stay_write :=
  split; [repeat case_match; reflexivity |];
  intros i; cbn -[alter insert lookup];
  first [ by rewrite lookup_alter_is_Some
        | rewrite lookup_insert_is_Some';  by right
        | repeat case_match; done ].

Lemma history_sound_step w w' :
  users_same_videos_stay w w' → history_sound w → history_sound w'.
Proof.
  intros [Husers Hstay] Hsound uid u i Hu Hi. rewrite Husers in Hu.
  apply Hstay. by eapply Hsound.
Qed.

Lemma history_sound_pruned o e1 e2 w :
  history_sound w →
  history_sound
    (record e2
       (with_videos (delete o)
          (record e1
             (with_users
                (fmap (λ u, if bool_decide (o ∈ watchHistory u)
                            then pull o u else u)) w)))).
Proof.
  intros Hsound uid u i. cbn -[delete lookup fmap].
  rewrite lookup_fmap. destruct (users w !! uid) as [u0 |] eqn:Hu0; [| done].
  cbn. intros [= <-] Hi.
  assert (i ∈ watchHistory u0 ∧ i ≠ o) as [Hin Hne].
  { case_bool_decide as Ho.
    - unfold pull in Hi. cbn in Hi. apply list_elem_of_filter in Hi. tauto.
    - split; [done | by intros ->]. }
  rewrite lookup_delete_ne by done. by eapply Hsound.
Qed.

(** Suppose every identifier in a watch-history names a stored video.
    [togglePublishStatus], [updateVideo], [publishAVideo] and [deleteVideo]
    keep it so, whatever the request and its outcome, and so does
    [getVideoById] when the identifier it is given names a stored video.
    The one request that breaks it is a [getVideoById] by a stored user for
    an identifier that names no stored video. *)
Theorem watch_histories_name_stored_videos upload w :
  history_sound w →
  (∀ videoId user, history_sound (togglePublishStatus videoId user w).1)
  ∧ (∀ videoId t d path user,
       history_sound (updateVideo upload videoId t d path user w).1)
  ∧ (∀ t d files user, history_sound (publishAVideo upload t d files user w).1)
  ∧ (∀ videoId user, history_sound (deleteVideo videoId user w).1)
  ∧ (∀ videoId o user,
       castObjectId videoId = Some o →
       is_Some (videos w !! o) →
       history_sound (getVideoById videoId user w).1)
  ∧ (∀ videoId o uid u,
       castObjectId videoId = Some o →
       videos w !! o = None →
       users w !! uid = Some u →
       ¬ history_sound (getVideoById videoId (Some uid) w).1).
Proof.
  intros Hsound. split; [| split; [| split; [| split; [| split]]]].
  - intros videoId user. apply (history_sound_step w); [| done]. revert w Hsound.
    intros w _. revert w.
    change (keeps users_same_videos_stay (togglePublishStatus videoId user)).
    unfold togglePublishStatus. unfold_store. keeps_walk stay_write.
  - intros videoId t d path user. apply (history_sound_step w); [| done].
    clear Hsound. revert w.
    change (keeps users_same_videos_stay (updateVideo upload videoId t d path user)).
    unfold updateVideo. unfold_store. keeps_walk stay_write.
  - intros t d files user. apply (history_sound_step w); [| done].
    clear Hsound. revert w.
    change (keeps users_same_videos_stay (publishAVideo upload t d files user)).
    unfold publishAVideo. unfold_store. keeps_walk stay_write.
  - intros videoId user. unfold deleteVideo. run_handler.
    destruct (castObjectId videoId) as [o |]; settle; [| done].
    destruct (not_owner (videos w !! o) user); settle; [done |].
    cbn -[delete lookup fmap].
    destruct (videos w !! o) as [v |]; cbn -[delete lookup fmap];
      by apply history_sound_pruned.
  - intros videoId o user Hid [v Hv].
    destruct (user ≫= (λ uid, users w !! uid)) as [u |] eqn:Hu.
    + destruct user as [uid |]; [| done]. cbn in Hu.
      rewrite (getVideoById_run videoId o uid u w Hid Hu).
      intros uid' u' i. cbn -[alter lookup].
      rewrite lookup_alter_is_Some.
      destruct (decide (uid' = uid)) as [-> | Hne].
      * rewrite lookup_alter_eq, Hu. cbn. intros [= <-]. cbn.
        intros [Hi | ->%list_elem_of_singleton]%elem_of_app; [by eapply Hsound | done].
      * rewrite lookup_alter_ne by done. by apply Hsound.
    + rewrite (getVideoById_stranger videoId o user w Hid Hu).
      intros uid' u' i. cbn -[alter lookup]. rewrite lookup_alter_is_Some.
      by apply Hsound.
  - intros videoId o uid u Hid Hv Hu Hbad.
    rewrite (getVideoById_run videoId o uid u w Hid Hu) in Hbad.
    destruct (Hbad uid (set_watchHistory (watchHistory u ++ [o]) u) o) as [v' Hv'].
    + cbn -[alter lookup]. by rewrite lookup_alter_eq, Hu.
    + cbn. set_solver +.
    + cbn -[alter lookup] in Hv'. rewrite lookup_alter_eq, Hv in Hv'. done.
Qed.

Lemma demo_world_history_sound : history_sound demo_world.
Proof.
  intros uid u i Hu Hi. unfold demo_world in Hu. cbn -[lookup insert] in Hu.
  apply lookup_insert_Some in Hu as [[<- <-] | [_ Hu]];
    [by apply elem_of_nil in Hi |].
  apply lookup_insert_Some in Hu as [[<- <-] | [_ Hu]];
    [| by rewrite lookup_empty in Hu].
  cbn in Hi. repeat (apply elem_of_cons in Hi as [-> | Hi]);
    first [eexists; reflexivity | by apply elem_of_nil in Hi].
Qed.

Lemma watch_histories_name_stored_videos_witness :
  (∀ videoId user, history_sound (togglePublishStatus videoId user demo_world).1)
  ∧ (∀ videoId t d path user,
       history_sound (updateVideo demo_upload videoId t d path user demo_world).1)
  ∧ (∀ t d files user,
       history_sound (publishAVideo demo_upload t d files user demo_world).1)
  ∧ (∀ videoId user, history_sound (deleteVideo videoId user demo_world).1)
  ∧ (∀ videoId o user,
       castObjectId videoId = Some o →
       is_Some (videos demo_world !! o) →
       history_sound (getVideoById videoId user demo_world).1)
  ∧ (∀ videoId o uid u,
       castObjectId videoId = Some o →
       videos demo_world !! o = None →
       users demo_world !! uid = Some u →
       ¬ history_sound (getVideoById videoId (Some uid) demo_world).1).
Proof.
  apply (watch_histories_name_stored_videos demo_upload demo_world).
  exact demo_world_history_sound.
Defined.

(** ** Concrete runs of two earlier lemmas *)

Lemma getVideoById_missing_witness :
  ∃ w', getVideoById id9 (Some bob) demo_world
          = (w', Return {| r_video := [];
                           r_watchHistory := watchHistory bob_doc ++ [9%N] |})
        ∧ watchHistory <$> users w' !! bob = Some (watchHistory bob_doc ++ [9%N]).
Proof.
  apply (getVideoById_missing id9 9%N bob bob_doc demo_world); reflexivity.
Defined.

Lemma publishAVideo_blank_witness :
  publishAVideo demo_upload (Some (bytes [32; 194; 160; 9; 227; 128; 128]%N))
    (Some "D") (Some demo_files) (Some alice) demo_world
    = (demo_world, Throw (ApiError 400 "All fields are required")).
Proof.
  apply (publishAVideo_blank demo_upload
           (Some (bytes [32; 194; 160; 9; 227; 128; 128]%N)) (Some "D")
           (Some demo_files) (Some alice) demo_world). reflexivity.
Defined.

(** [trim] on a few strings: white space goes at both ends only, Unicode
    white space (here U+00A0, U+2003, U+FEFF, U+3000) as well as ASCII, and
    a letter whose last byte is the byte A0 (U+00E0) is left alone. *)
Lemma trim_examples :
  trim "  T v 	" = "T v"
  ∧ trim (bytes [194; 160; 84; 226; 128; 131; 239; 187; 191]%N) = "T"
  ∧ trim (bytes [32; 227; 128; 128; 194; 160]%N) = ""
  ∧ trim (bytes [195; 160]%N) = bytes [195; 160]%N
  ∧ trim (bytes [97; 194; 160; 98]%N) = bytes [97; 194; 160; 98]%N
  ∧ blank (Some (bytes [194; 160]%N)) = true
  ∧ blank (Some "") = true
  ∧ blank None = false.
Proof. repeat split; reflexivity. Qed.

